(** * Log-Analyzer: the sensing layer of [log_analyzer.py]

    A shallow embedding of [AdvancedLogAnalyzer] and the properties of its
    specification.

    Conventions of the model.
    - A Python [str] is the list of its characters ([str := list ascii]); a
      character is a code point below 256, classified the way CPython
      classifies Latin-1 ([str.isspace], [str.isalnum], [str.lower]).
    - Python integers are [Z]; [int] on a text of more than 4300 digits
      raises [ValueError], the default limit of CPython 3.11.
    - The regular expressions of the source are written out as the
      deterministic scanners they denote; each scanner's comment carries the
      pattern it implements (the greedy group of any character, a dot and a
      star in parentheses, is written DOTSTAR).
    - An exception is a value of [exn]; code that may raise returns a
      [result].
    - Floating-point values are kept as the expressions that produce them;
      only the overflow of the conversion to a float is modelled.
    - [json.loads], [json.dumps], [str] and [csv.DictReader] are parameters
      of the normalizer. *)

From Stdlib Require Import Ascii String ZArith Lia Bool Permutation List.
From Stdlib Require Import DecimalString Sorted.
Import ListNotations.

Local Open Scope Z_scope.
Local Open Scope list_scope.

(** ** Strings *)

Definition str := list ascii.

Definition lit (s : string) : str := list_ascii_of_string s.

Definition code (c : ascii) : N := N_of_ascii c.

Definition in_range (lo hi : N) (c : ascii) : bool :=
  (N.leb lo (code c) && N.leb (code c) hi)%bool.

Definition chr_nl : ascii := ascii_of_N 10.
Definition chr_quote : ascii := ascii_of_N 39.
Definition chr_dquote : ascii := ascii_of_N 34.

(** [str.isspace] on Latin-1, which is also the class "\s". *)
Definition is_space (c : ascii) : bool :=
  (in_range 9 13 c || in_range 28 32 c
   || N.eqb (code c) 133 || N.eqb (code c) 160)%bool.

(** The class "\d" on Latin-1: the ten decimal digits. *)
Definition is_digit (c : ascii) : bool := in_range 48 57 c.

Definition is_ascii_alpha (c : ascii) : bool :=
  (in_range 65 90 c || in_range 97 122 c)%bool.

(** The Latin-1 characters above 127 for which [str.isalnum] holds. *)
Definition is_latin1_alnum (c : ascii) : bool :=
  (N.eqb (code c) 170 || in_range 178 179 c || N.eqb (code c) 181
   || in_range 185 186 c || in_range 188 190 c
   || in_range 192 214 c || in_range 216 246 c || in_range 248 255 c)%bool.

(** The class "\w": [str.isalnum] or the underscore. *)
Definition is_word (c : ascii) : bool :=
  (is_ascii_alpha c || is_digit c || N.eqb (code c) 95
   || is_latin1_alnum c)%bool.

(** [str.lower] on one Latin-1 character. *)
Definition lower_char (c : ascii) : ascii :=
  if (in_range 65 90 c || in_range 192 214 c || in_range 216 222 c)%bool
  then ascii_of_N (code c + 32) else c.

Definition lower (s : str) : str := map lower_char s.

Fixpoint str_eqb (a b : str) : bool :=
  match a, b with
  | [], [] => true
  | x :: a', y :: b' => Ascii.eqb x y && str_eqb a' b'
  | _, _ => false
  end.

Fixpoint drop_while (p : ascii -> bool) (s : str) : str :=
  match s with
  | [] => []
  | c :: t => if p c then drop_while p t else s
  end.

Fixpoint take_while (p : ascii -> bool) (s : str) : str :=
  match s with
  | [] => []
  | c :: t => if p c then c :: take_while p t else []
  end.

(** [s.strip()] *)
Definition strip (s : str) : str :=
  rev (drop_while is_space (rev (drop_while is_space s))).

(** [s.split('\n')] *)
Fixpoint split_nl (s : str) : list str :=
  match s with
  | [] => [[]]
  | c :: t =>
      if Ascii.eqb c chr_nl then [] :: split_nl t
      else match split_nl t with
           | h :: r => (c :: h) :: r
           | [] => [[c]]
           end
  end.

(** [prefix in s] at the head of [s]: [s.startswith(prefix)]. *)
Fixpoint starts_with (p s : str) : bool :=
  match p, s with
  | [], _ => true
  | x :: p', y :: s' => Ascii.eqb x y && starts_with p' s'
  | _ :: _, [] => false
  end.

(** [sub in s] *)
Fixpoint contains (sub s : str) : bool :=
  starts_with sub s ||
  match s with
  | [] => false
  | _ :: t => contains sub t
  end.

(** [str(n)] for an integer. *)
Definition str_of_Z (n : Z) : str := lit (NilZero.string_of_int (Z.to_int n)).

(** The number a non-empty run of decimal digits denotes. *)
Definition digit_val (c : ascii) : Z := Z.of_N (code c) - 48.

Definition int_of_digits (ds : str) : Z :=
  fold_left (fun acc c => 10 * acc + digit_val c) ds 0.

(** ** Exceptions *)

Inductive exn : Type :=
| JSONDecodeError
| CsvError
| AttributeError
| StatisticsError
| ValueError
| OverflowError.

Inductive result (A : Type) : Type :=
| Ok (a : A)
| Raise (e : exn).

Arguments Ok {A} a.
Arguments Raise {A} e.

Definition bind {A B : Type} (r : result A) (k : A -> result B) : result B :=
  match r with
  | Ok a => k a
  | Raise e => Raise e
  end.

Notation "x <- r ;; k" := (bind r (fun x => k))
  (at level 61, r at next level, right associativity).

(** [sys.get_int_max_str_digits()]: the default of CPython 3.11, which the
    program does not change. *)
Definition int_max_str_digits : Z := 4300.

(** [int(ds)] for a non-empty run of decimal digits: [ValueError]
    ("Exceeds the limit (4300 digits) for integer string conversion") when
    the run has more digits than the limit, leading zeros counted. *)
Definition py_int (ds : str) : result Z :=
  if int_max_str_digits <? Z.of_nat (length ds) then Raise ValueError
  else Ok (int_of_digits ds).

(** ** Line parser *)

Record entry : Type := mk_entry {
  e_timestamp : str;
  e_level : str;
  e_component : str;
  e_message : str;
  e_raw : str
}.

(** "\s+" : a maximal, non-empty run of white space. *)
Definition spaces1 (s : str) : option str :=
  match s with
  | c :: t => if is_space c then Some (drop_while is_space t) else None
  | [] => None
  end.

(** "\[(\w+)\]" : the group is the maximal run of word characters. *)
Definition bracket_word (s : str) : option (str * str) :=
  match s with
  | c :: t =>
      if Ascii.eqb c "["%char then
        match take_while is_word t, drop_while is_word t with
        | w :: ws, d :: r =>
            if Ascii.eqb d "]"%char then Some (w :: ws, r) else None
        | _, _ => None
        end
      else None
  | [] => None
  end.

(** "\s+\[(\w+)\]\s+" : what must follow the bracket that closes the
    timestamp. *)
Definition level_part (s : str) : option (str * str) :=
  match spaces1 s with
  | Some s1 =>
      match bracket_word s1 with
      | Some (lvl, s2) =>
          match spaces1 s2 with
          | Some s3 => Some (lvl, s3)
          | None => None
          end
      | None => None
      end
  | None => None
  end.

(** "(.*?)\]" followed by the continuation [k]: the lazy group grows one
    character at a time (never across a newline) until a closing bracket is
    found after which [k] succeeds. *)
Fixpoint lazy_bracket {A : Type} (k : str -> option A) (s : str)
  : option (str * A) :=
  match s with
  | [] => None
  | c :: t =>
      match (if Ascii.eqb c "]"%char then k t else None) with
      | Some a => Some ([], a)
      | None =>
          if Ascii.eqb c chr_nl then None
          else match lazy_bracket k t with
               | Some (g, a) => Some (c :: g, a)
               | None => None
               end
      end
  end.

(** DOTSTAR : everything up to the next newline. *)
Definition rest_of_line (s : str) : str :=
  take_while (fun c => negb (Ascii.eqb c chr_nl)) s.

(** "(?:\[(.*?)\]\s+)?" DOTSTAR : the optional component group, then the
    message. *)
Definition component_and_message (s : str) : option str * str :=
  match s with
  | c :: t =>
      if Ascii.eqb c "["%char then
        match lazy_bracket spaces1 t with
        | Some (comp, r) => (Some comp, rest_of_line r)
        | None => (None, rest_of_line s)
        end
      else (None, rest_of_line s)
  | [] => (None, [])
  end.

(** [log_pattern.match(s).groups()] for
    "\[(.*?)\]\s+\[(\w+)\]\s+(?:\[(.*?)\]\s+)?" DOTSTAR. *)
Definition log_pattern_match (s : str)
  : option (str * str * option str * str) :=
  match s with
  | c :: t =>
      if Ascii.eqb c "["%char then
        match lazy_bracket level_part t with
        | Some (ts, (lvl, r)) =>
            let (comp, msg) := component_and_message r in
            Some (ts, lvl, comp, msg)
        | None => None
        end
      else None
  | [] => None
  end.

(** [component or "System"] *)
Definition component_or_system (c : option str) : str :=
  match c with
  | Some (x :: r) => x :: r
  | _ => lit "System"
  end.

(** One iteration of the loop of [_parse_lines]. *)
Definition parse_line (line : str) : option entry :=
  match log_pattern_match (strip line) with
  | Some (ts, lvl, comp, msg) =>
      Some (mk_entry ts lvl (component_or_system comp) msg line)
  | None => None
  end.

(** [_parse_lines]: [self.parsed_data] after the loop. *)
Fixpoint parse_lines (lines : list str) : list entry :=
  match lines with
  | [] => []
  | l :: ls =>
      match parse_line l with
      | Some e => e :: parse_lines ls
      | None => parse_lines ls
      end
  end.

(** [self.lines] as [__init__] computes it from the normalized text. *)
Definition is_blank (s : str) : bool :=
  match strip s with [] => true | _ => false end.

Definition lines_of (normalized : str) : list str :=
  filter (fun l => negb (is_blank l)) (split_nl (strip normalized)).

(** ** Pattern clusterer: masking *)

(** The character before a position, or after it; [None] at either end of
    the text.  A word boundary "\b" lies between two neighbours exactly when
    one of them is a word character and the other is not. *)
Definition wordb (o : option ascii) : bool :=
  match o with
  | Some c => is_word c
  | None => false
  end.

Definition boundary (before after : option ascii) : bool :=
  xorb (wordb before) (wordb after).

Definition last_char (prev : option ascii) (s : str) : option ascii :=
  fold_left (fun _ c => Some c) s prev.

(** A matcher tells how many characters the pattern matches at the front
    of the text, given the character that precedes it. *)
Definition matcher := option ascii -> str -> option nat.

(** [re.sub(pattern, repl, s)]: left to right, each match is replaced and
    the scan resumes after it; [skip] counts the characters of the current
    match still to be consumed.  No pattern of the source matches the empty
    string. *)
Fixpoint sub_scan (m : matcher) (repl : str) (skip : nat)
  (prev : option ascii) (s : str) : str :=
  match s with
  | [] => []
  | c :: t =>
      match skip with
      | S k => sub_scan m repl k (Some c) t
      | O =>
          match m prev s with
          | Some (S k) => repl ++ sub_scan m repl k (Some c) t
          | _ => c :: sub_scan m repl O (Some c) t
          end
      end
  end.

Definition re_sub (m : matcher) (repl : str) (s : str) : str :=
  sub_scan m repl O None s.

(** "\d+" : a maximal non-empty run of digits; what follows it. *)
Definition digits1 (s : str) : option str :=
  match s with
  | c :: t => if is_digit c then Some (drop_while is_digit t) else None
  | [] => None
  end.

(** "\." *)
Definition dot1 (s : str) : option str :=
  match s with
  | c :: t => if Ascii.eqb c "."%char then Some t else None
  | [] => None
  end.

Definition consumed (s rest : str) : nat := (length s - length rest)%nat.

(** "\b\d+\.\d+\.\d+\.\d+\b" *)
Definition m_ip : matcher := fun prev s =>
  if wordb prev then None else
  match digits1 s with
  | Some r1 =>
    match dot1 r1 with
    | Some r2 =>
      match digits1 r2 with
      | Some r3 =>
        match dot1 r3 with
        | Some r4 =>
          match digits1 r4 with
          | Some r5 =>
            match dot1 r5 with
            | Some r6 =>
              match digits1 r6 with
              | Some r7 =>
                  if wordb (hd_error r7) then None
                  else Some (consumed s r7)
              | None => None
              end
            | None => None
            end
          | None => None
          end
        | None => None
        end
      | None => None
      end
    | None => None
    end
  | None => None
  end.

(** The class "[0-9a-fA-F-]". *)
Definition is_hexdash (c : ascii) : bool :=
  (is_digit c || in_range 97 102 c || in_range 65 70 c
   || Ascii.eqb c "-"%char)%bool.

(** "\b[0-9a-fA-F-]{36}\b" *)
Definition m_uuid : matcher := fun prev s =>
  let w := firstn 36 s in
  if (Nat.eqb (length w) 36 && forallb is_hexdash w
      && boundary prev (hd_error s)
      && boundary (last_char None w) (hd_error (skipn 36 s)))%bool
  then Some 36%nat else None.

(** "\b\d+\b" *)
Definition m_num : matcher := fun prev s =>
  match digits1 s with
  | Some r =>
      if (wordb prev || wordb (hd_error r))%bool then None
      else Some (consumed s r)
  | None => None
  end.

(** The lazy ".*?'" after an opening quote: the distance to the first later
    quote, provided no newline comes before it. *)
Fixpoint closing_quote (s : str) : option nat :=
  match s with
  | [] => None
  | c :: t =>
      if Ascii.eqb c chr_quote then Some O
      else if Ascii.eqb c chr_nl then None
      else option_map S (closing_quote t)
  end.

(** "'.*?'" *)
Definition m_str : matcher := fun _ s =>
  match s with
  | c :: t =>
      if Ascii.eqb c chr_quote
      then option_map (fun n => S (S n)) (closing_quote t)
      else None
  | [] => None
  end.

(** The replacement of a quoted string: "{STR}" between single quotes. *)
Definition str_mask : str := chr_quote :: lit "{STR}" ++ [chr_quote].

(** [mask_patterns], in the order of the source. *)
Definition mask_patterns : list (matcher * str) :=
  [ (m_ip, lit "{IP}");
    (m_uuid, lit "{UUID}");
    (m_num, lit "{NUM}");
    (m_str, str_mask) ].

(** The inner loop of [_cluster_logs]:
    [for pattern, mask in mask_patterns: masked_msg = re.sub(...)]. *)
Definition mask (msg : str) : str :=
  fold_left (fun masked pm => re_sub (fst pm) (snd pm) masked)
            mask_patterns msg.

(** ** Pattern clusterer: grouping *)

Record cluster : Type := mk_cluster {
  c_pattern : str;
  c_level : str;
  c_count : Z;
  c_example : str;
  c_timestamps : list str
}.

(** The dictionary [clusters]: keys in insertion order, as a Python [dict]
    keeps them. *)
Definition cluster_dict := list (str * cluster).

Fixpoint dict_mem (k : str) (d : cluster_dict) : bool :=
  match d with
  | [] => false
  | (k', _) :: r => str_eqb k k' || dict_mem k r
  end.

(** In-place update of the value stored under [k]. *)
Fixpoint dict_update (k : str) (f : cluster -> cluster) (d : cluster_dict)
  : cluster_dict :=
  match d with
  | [] => []
  | (k', c) :: r =>
      if str_eqb k k' then (k', f c) :: r
      else (k', c) :: dict_update k f r
  end.

(** [f"[{entry['level']}] {masked_msg}"] *)
Definition signature (level masked : str) : str :=
  lit "[" ++ level ++ lit "] " ++ masked.

Definition entry_signature (e : entry) : str :=
  signature (e_level e) (mask (e_message e)).

(** [count += 1] and [timestamps.append(...)]. *)
Definition fold_in (ts : str) (c : cluster) : cluster :=
  mk_cluster (c_pattern c) (c_level c) (c_count c + 1) (c_example c)
             (c_timestamps c ++ [ts]).

(** The body of the loop over [self.parsed_data]. *)
Definition cluster_step (d : cluster_dict) (e : entry) : cluster_dict :=
  let masked_msg := mask (e_message e) in
  let sig := signature (e_level e) masked_msg in
  let d1 :=
    if dict_mem sig d then d
    else d ++ [(sig, mk_cluster masked_msg (e_level e) 0 (e_message e) [])] in
  dict_update sig (fold_in (e_timestamp e)) d1.

Definition all_clusters (parsed_data : list entry) : cluster_dict :=
  fold_left cluster_step parsed_data [].

(** [sorted(..., key=lambda x: x['count'], reverse=True)]: a stable sort by
    descending count; an element goes in front of the elements that do not
    count more than it does. *)
Fixpoint insert_by_count (c : cluster) (l : list cluster) : list cluster :=
  match l with
  | [] => [c]
  | y :: r =>
      if c_count c <? c_count y then y :: insert_by_count c r
      else c :: y :: r
  end.

Definition sort_by_count (l : list cluster) : list cluster :=
  fold_right insert_by_count [] l.

(** [_cluster_logs] *)
Definition cluster_logs (parsed_data : list entry) : list cluster :=
  firstn 20 (sort_by_count (map snd (all_clusters parsed_data))).

(** ** Metric extractor *)

(** The text after the literal [p], when the text starts with it. *)
Fixpoint after_prefix (p s : str) : option str :=
  match p, s with
  | [], _ => Some s
  | x :: p', y :: s' => if Ascii.eqb x y then after_prefix p' s' else None
  | _ :: _, [] => None
  end.

(** The same under [re.IGNORECASE]. *)
Fixpoint after_prefix_ci (p s : str) : option str :=
  match p, s with
  | [], _ => Some s
  | x :: p', y :: s' =>
      if Ascii.eqb (lower_char x) (lower_char y)
      then after_prefix_ci p' s' else None
  | _ :: _, [] => None
  end.

(** "\s*(\d+)" and then the literal [suffix] (compared by [after]): the
    text of the group. *)
Definition spaces_digits_then (after : str -> option str) (s : str)
  : option str :=
  let r := drop_while is_space s in
  match take_while is_digit r with
  | d :: ds =>
      match after (drop_while is_digit r) with
      | Some _ => Some (d :: ds)
      | None => None
      end
  | [] => None
  end.

(** "CPU:\s*(\d+)%" at the front of the text: [match.group(1)]. *)
Definition match_cpu (s : str) : option str :=
  match after_prefix (lit "CPU:") s with
  | Some r => spaces_digits_then (after_prefix (lit "%")) r
  | None => None
  end.

(** "MEM:\s*(\d+)" at the front of the text. *)
Definition match_mem (s : str) : option str :=
  match after_prefix (lit "MEM:") s with
  | Some r => spaces_digits_then (after_prefix []) r
  | None => None
  end.

(** "(?:Duration|latency|time):\s*(\d+)ms" with [re.IGNORECASE] at the front
    of the text: the alternatives are tried in order. *)
Definition match_latency_alt (word : str) (s : str) : option str :=
  match after_prefix_ci (word ++ lit ":") s with
  | Some r => spaces_digits_then (after_prefix_ci (lit "ms")) r
  | None => None
  end.

Definition match_latency (s : str) : option str :=
  match match_latency_alt (lit "Duration") s with
  | Some v => Some v
  | None =>
      match match_latency_alt (lit "latency") s with
      | Some v => Some v
      | None => match_latency_alt (lit "time") s
      end
  end.

(** [re.search]: the match at the leftmost position where there is one. *)
Fixpoint re_search {A : Type} (m : str -> option A) (s : str) : option A :=
  match m s with
  | Some a => Some a
  | None =>
      match s with
      | [] => None
      | _ :: t => re_search m t
      end
  end.

(** A floating-point value, kept as the expression that produces it: no
    property below reads it. *)
Inductive float_expr : Type :=
| FDiv (a b : Z)
| FRound2 (f : float_expr).

Inductive number : Type :=
| PyInt (z : Z)
| PyFloat (f : float_expr).

(** Quotients of this magnitude or more round to a binary64 that is not
    finite. *)
Definition float_limit : Z := 2 ^ 1024 - 2 ^ 970.

(** [a / b] on integers: [OverflowError] ("integer division result too
    large for a float") when the quotient is out of the binary64 range. *)
Definition true_divide (a b : Z) : result float_expr :=
  if float_limit * Z.abs b <=? Z.abs a then Raise OverflowError
  else Ok (FDiv a b).

Definition sum_Z (l : list Z) : Z := fold_right Z.add 0 l.

(** [statistics.mean] on integers: the exact mean when it is an integer,
    else its conversion to a float. *)
Definition statistics_mean (data : list Z) : result number :=
  match data with
  | [] => Raise StatisticsError
  | _ :: _ =>
      let total := sum_Z data in
      let n := Z.of_nat (length data) in
      if total mod n =? 0 then Ok (PyInt (total / n))
      else f <- true_divide total n ;; Ok (PyFloat f)
  end.

(** [round(x, 2)] *)
Definition round2 (x : number) : number :=
  match x with
  | PyInt z => PyInt z
  | PyFloat f => PyFloat (FRound2 f)
  end.

(** [max(values)] *)
Definition py_max (l : list Z) : result Z :=
  match l with
  | [] => Raise ValueError
  | x :: r => Ok (fold_left Z.max r x)
  end.

Record metrics : Type := mk_metrics {
  avg_cpu : number;
  max_cpu : Z;
  avg_memory : number;
  max_latency : Z;
  metric_points : Z;
  cpu_series : list Z;
  memory_series : list Z;
  latency_series : list Z
}.

(** [values.append(int(match.group(1)))] when there is a match. *)
Definition append_match (values : list Z) (m : option str)
  : result (list Z) :=
  match m with
  | Some group1 => v <- py_int group1 ;; Ok (values ++ [v])
  | None => Ok values
  end.

(** The body of the loop of [_extract_metrics] on the three series. *)
Definition metrics_step (acc : list Z * list Z * list Z) (e : entry)
  : result (list Z * list Z * list Z) :=
  let '(cpu_values, mem_values, latency_values) := acc in
  let msg := e_message e in
  cpu_values <- append_match cpu_values (re_search match_cpu msg) ;;
  mem_values <- append_match mem_values (re_search match_mem msg) ;;
  latency_values <-
    append_match latency_values (re_search match_latency msg) ;;
  Ok (cpu_values, mem_values, latency_values).

(** The loop of [_extract_metrics]: it stops at the first entry on which
    the body raises. *)
Fixpoint metrics_loop (parsed_data : list entry)
  (acc : list Z * list Z * list Z) : result (list Z * list Z * list Z) :=
  match parsed_data with
  | [] => Ok acc
  | e :: rest => acc' <- metrics_step acc e ;; metrics_loop rest acc'
  end.

Definition metric_series (parsed_data : list entry)
  : result (list Z * list Z * list Z) :=
  metrics_loop parsed_data ([], [], []).

(** [round(statistics.mean(values), 2) if values else 0] *)
Definition avg_or_zero (values : list Z) : result number :=
  match values with
  | [] => Ok (PyInt 0)
  | _ :: _ => m <- statistics_mean values ;; Ok (round2 m)
  end.

(** [max(values) if values else 0] *)
Definition max_or_zero (values : list Z) : result Z :=
  match values with
  | [] => Ok 0
  | _ :: _ => py_max values
  end.

(** [_extract_metrics] *)
Definition extract_metrics (parsed_data : list entry) : result metrics :=
  series <- metric_series parsed_data ;;
  let '(cpu_values, mem_values, latency_values) := series in
  a_cpu <- avg_or_zero cpu_values ;;
  m_cpu <- max_or_zero cpu_values ;;
  a_mem <- avg_or_zero mem_values ;;
  m_lat <- max_or_zero latency_values ;;
  Ok (mk_metrics a_cpu m_cpu a_mem m_lat (Z.of_nat (length cpu_values))
                 cpu_values mem_values latency_values).

(** ** Anomaly detector, correlation engine, health scorer *)

Definition cpu_anomaly (v : Z) : str :=
  lit "Critical CPU Spike detected: " ++ str_of_Z v ++ lit "%".

Definition latency_anomaly (v : Z) : str :=
  lit "High Latency detected: " ++ str_of_Z v ++ lit "ms".

(** [_detect_anomalies] *)
Definition detect_anomalies (m : metrics) : list str :=
  let anomalies := [] in
  let anomalies :=
    if 80 <? max_cpu m then anomalies ++ [cpu_anomaly (max_cpu m)]
    else anomalies in
  let anomalies :=
    if 2000 <? max_latency m
    then anomalies ++ [latency_anomaly (max_latency m)]
    else anomalies in
  anomalies.

Definition correlation_text : str :=
  lit "Strong correlation: Database Errors are likely causing Latency spikes.".

(** [_find_correlations] *)
Definition find_correlations (anomalies : list str) (clusters : list cluster)
  : list str :=
  let has_latency :=
    existsb (fun a => contains (lit "Latency") a
                      || contains (lit "Latency") a) anomalies in
  let has_db_errors :=
    existsb (fun c => contains (lit "database") (lower (c_pattern c))
                      && str_eqb (c_level c) (lit "ERROR")) clusters in
  if has_latency && has_db_errors then [] ++ [correlation_text] else [].

Definition is_error_level (level : str) : bool :=
  existsb (str_eqb level) [lit "ERROR"; lit "CRITICAL"].

(** [_calculate_health] *)
Definition calculate_health (clusters : list cluster) (anomalies : list str)
  : Z :=
  let score := 100 in
  let total_errors :=
    sum_Z (map c_count
               (filter (fun c => is_error_level (c_level c)) clusters)) in
  let score := score - total_errors * 5 in
  let score := score - Z.of_nat (length anomalies) * 10 in
  Z.max 0 score.

(** ** Context composer *)

Fixpoint join (sep : str) (l : list str) : str :=
  match l with
  | [] => []
  | [x] => x
  | x :: r => x ++ sep ++ join sep r
  end.

Definition hex_digit (n : N) : ascii :=
  if N.ltb n 10 then ascii_of_N (48 + n) else ascii_of_N (87 + n).

(** One character of a JSON string under [ensure_ascii]. *)
Definition json_escape_char (c : ascii) : str :=
  if Ascii.eqb c chr_dquote then [ "\"%char; chr_dquote ]
  else if Ascii.eqb c "\"%char then lit "\\"
  else if N.eqb (code c) 10 then lit "\n"
  else if N.eqb (code c) 13 then lit "\r"
  else if N.eqb (code c) 9 then lit "\t"
  else if N.eqb (code c) 8 then lit "\b"
  else if N.eqb (code c) 12 then lit "\f"
  else if in_range 32 126 c then [c]
  else lit "\u00" ++ [hex_digit (N.div (code c) 16);
                      hex_digit (N.modulo (code c) 16)].

Definition json_string (s : str) : str :=
  chr_dquote :: flat_map json_escape_char s ++ [chr_dquote].

(** [json.dumps(anomalies, indent=2)] for a list of strings. *)
Definition json_dumps_indent2 (l : list str) : str :=
  match l with
  | [] => lit "[]"
  | _ :: _ =>
      lit "[" ++ [chr_nl] ++ lit "  "
      ++ join (lit "," ++ [chr_nl] ++ lit "  ") (map json_string l)
      ++ [chr_nl] ++ lit "]"
  end.

(** [_format_clusters] *)
Definition format_clusters (clusters : list cluster) : str :=
  fold_left
    (fun text c =>
       text ++ lit "- [" ++ c_level c ++ lit "] x" ++ str_of_Z (c_count c)
            ++ lit ": " ++ c_pattern c ++ [chr_nl])
    clusters [].

(** [_prepare_llm_context] *)
Definition prepare_llm_context (clusters : list cluster)
  (anomalies : list str) (m : metrics) : str :=
  [chr_nl] ++ lit "AUTOMATED ANALYSIS REPORT:" ++ [chr_nl; chr_nl]
  ++ lit "1. TOP LOG PATTERNS (Clustered):" ++ [chr_nl]
  ++ format_clusters clusters ++ [chr_nl; chr_nl]
  ++ lit "2. DETECTED METRICS:" ++ [chr_nl]
  ++ lit "- Max CPU: " ++ str_of_Z (max_cpu m) ++ lit "%" ++ [chr_nl]
  ++ lit "- Max Latency: " ++ str_of_Z (max_latency m) ++ lit "ms"
  ++ [chr_nl; chr_nl]
  ++ lit "3. DETECTED ANOMALIES:" ++ [chr_nl]
  ++ json_dumps_indent2 anomalies ++ [chr_nl].

(** ** The analysis *)

Record report : Type := mk_report {
  parsed_entries : Z;
  log_levels : list (str * Z);
  components : list str;
  metrics_summary : metrics;
  anomalies : list str;
  correlations : list str;
  health_score : Z;
  analysis_ready_for_llm : str
}.

(** [Counter(...)]: one more occurrence of [k]; a new key goes last. *)
Fixpoint counter_add (k : str) (d : list (str * Z)) : list (str * Z) :=
  match d with
  | [] => [(k, 1)]
  | (k', n) :: r =>
      if str_eqb k k' then (k', n + 1) :: r else (k', n) :: counter_add k r
  end.

Definition count_levels (parsed_data : list entry) : list (str * Z) :=
  fold_left (fun d e => counter_add (e_level e) d) parsed_data [].

(** The set of the non-empty component names, listed once each.  Python
    leaves the order of a set unspecified; the model lists them in the
    order of their first occurrence. *)
Definition set_add (x : str) (l : list str) : list str :=
  if existsb (str_eqb x) l then l else l ++ [x].

Definition component_set (parsed_data : list entry) : list str :=
  fold_left
    (fun s e => match e_component e with
                | [] => s
                | _ :: _ => set_add (e_component e) s
                end)
    parsed_data [].

(** The state of an [AdvancedLogAnalyzer] object. *)
Record analyzer : Type := mk_analyzer {
  raw_logs : str;
  lines : list str;
  parsed_data : list entry
}.

(** [_parse_lines] appends to [self.parsed_data]. *)
Definition parse_lines_into (a : analyzer) : analyzer :=
  mk_analyzer (raw_logs a) (lines a) (parsed_data a ++ parse_lines (lines a)).

(** [analyze] *)
Definition analyze (a : analyzer) : result report :=
  let a := parse_lines_into a in
  let clusters := cluster_logs (parsed_data a) in
  metrics <- extract_metrics (parsed_data a) ;;
  let anomalies := detect_anomalies metrics in
  let health_score := calculate_health clusters anomalies in
  Ok (mk_report
        (Z.of_nat (length (parsed_data a)))
        (count_levels (parsed_data a))
        (component_set (parsed_data a))
        metrics
        anomalies
        (find_correlations anomalies clusters)
        health_score
        (prepare_llm_context clusters anomalies metrics)).

(** What [__init__] does once the input is normalized. *)
Definition analyzer_of (raw normalized : str) : analyzer :=
  mk_analyzer raw (lines_of normalized) [].

(** A fresh analyzer on a text that normalization leaves unchanged, and its
    one call of [analyze]. *)
Definition analyze_text (text : str) : result report :=
  analyze (analyzer_of text text).

(** The clusters that the run on [text] passes to the health scorer, the
    correlation engine and the context composer. *)
Definition clusters_of_text (text : str) : list cluster :=
  cluster_logs (parse_lines (lines_of text)).

(** ** Input normalizer *)

Section Normalizer.

(** The Python runtime the normalizer calls into: the payload of a JSON
    number that is not an integer and its truth value, [json.loads],
    [json.dumps], [str] on a value that is not a string, and
    [csv.DictReader] read to its end. *)
Variable pyfloat : Type.
Variable float_truthy : pyfloat -> bool.

#[warnings="-register-all"]
Inductive json : Type :=
| JNull
| JBool (b : bool)
| JInt (z : Z)
| JFloat (f : pyfloat)
| JStr (s : str)
| JArr (l : list json)
| JObj (kv : list (str * json)).

(** A row of [csv.DictReader]: the header's fields ([None] where the row
    is short) and, under the key [None], the fields beyond the header. *)
Record csv_row : Type := mk_row {
  named : list (str * option str);
  rest : list str
}.

Variable json_loads : str -> result json.
Variable json_dumps : json -> str.
Variable py_str : json -> str.
Variable csv_dictreader : str -> result (list csv_row).

Definition truthy (v : json) : bool :=
  match v with
  | JNull => false
  | JBool b => b
  | JInt z => negb (z =? 0)
  | JFloat f => float_truthy f
  | JStr s => match s with [] => false | _ => true end
  | JArr l => match l with [] => false | _ => true end
  | JObj kv => match kv with [] => false | _ => true end
  end.

(** [d.get(k)]; a missing key gives [None]. *)
Fixpoint dict_get {V : Type} (k : str) (d : list (str * V)) : option V :=
  match d with
  | [] => None
  | (k', v) :: r => if str_eqb k k' then Some v else dict_get k r
  end.

Definition get (k : str) (d : list (str * json)) : json :=
  match dict_get k d with
  | Some v => v
  | None => JNull
  end.

(** [a or b] *)
Definition py_or (a b : json) : json := if truthy a then a else b.

(** A value inside an f-string, and [str(v)]. *)
Definition to_str (v : json) : str :=
  match v with
  | JStr s => s
  | _ => py_str v
  end.

(** [f"[{ts}] [{lvl}] [{comp}] {msg}"] *)
Definition log_line (ts lvl comp msg : str) : str :=
  lit "[" ++ ts ++ lit "] [" ++ lvl ++ lit "] [" ++ comp ++ lit "] " ++ msg.

(** The line synthesized for a top-level object. *)
Definition line_of_object (parsed : list (str * json)) : str :=
  let ts := py_or (get (lit "timestamp") parsed)
                  (py_or (get (lit "time") parsed) (JStr [])) in
  let lvl := py_or (get (lit "level") parsed)
                   (py_or (get (lit "severity") parsed)
                          (JStr (lit "INFO"))) in
  let comp := py_or (get (lit "component") parsed)
                    (py_or (get (lit "service") parsed) (JStr [])) in
  let msg := py_or (get (lit "message") parsed)
                   (py_or (get (lit "msg") parsed)
                          (JStr (json_dumps (JObj parsed)))) in
  log_line (to_str ts) (to_str lvl) (to_str comp) (to_str msg).

(** The line synthesized for an object inside a top-level array. *)
Definition line_of_element (obj : list (str * json)) : str :=
  let ts := py_or (get (lit "timestamp") obj)
                  (py_or (get (lit "time") obj) (JStr [])) in
  let lvl := py_or (get (lit "level") obj) (JStr (lit "INFO")) in
  let comp := py_or (get (lit "component") obj) (JStr []) in
  let msg := py_or (get (lit "message") obj)
                   (py_or (get (lit "msg") obj)
                          (JStr (json_dumps (JObj obj)))) in
  log_line (to_str ts) (to_str lvl) (to_str comp) (to_str msg).

(** The line for a top-level object in the copy of the normalizer that
    [backend.py] defines inside its [/api/analyze] handler: the one place
    where [date] is an alias of the timestamp. *)
Definition backend_line_of_object (parsed : list (str * json)) : str :=
  let ts := py_or (get (lit "timestamp") parsed)
                  (py_or (get (lit "time") parsed)
                         (py_or (get (lit "date") parsed) (JStr []))) in
  let lvl := py_or (get (lit "level") parsed)
                   (py_or (get (lit "severity") parsed)
                          (JStr (lit "INFO"))) in
  let comp := py_or (get (lit "component") parsed)
                    (py_or (get (lit "service") parsed) (JStr [])) in
  let msg := py_or (get (lit "message") parsed)
                   (py_or (get (lit "msg") parsed)
                          (JStr (json_dumps (JObj parsed)))) in
  log_line (to_str ts) (to_str lvl) (to_str comp) (to_str msg).

(** The body of the first [try]: [Ok (Some s)] is [return s], [Ok None]
    is the end of the block without a [return]. *)
Definition json_attempt (input_text : str) : result (option str) :=
  parsed <- json_loads input_text ;;
  match parsed with
  | JObj kv =>
      match dict_get (lit "logs") kv with
      | Some (JStr logs) => Ok (Some logs)
      | _ => Ok (Some (line_of_object kv))
      end
  | JArr l =>
      Ok (Some (join [chr_nl]
                  (map (fun obj => match obj with
                                   | JObj kv => line_of_element kv
                                   | _ => to_str obj
                                   end) l)))
  | _ => Ok None
  end.

(** [row.get(k) or ...] on a CSV row: an absent or empty field is false. *)
Definition field (k : str) (row : csv_row) : option str :=
  match dict_get k (named row) with
  | Some (Some (c :: s)) => Some (c :: s)
  | _ => None
  end.

Definition field_or (k : str) (row : csv_row) (other : str) : str :=
  match field k row with
  | Some s => s
  | None => other
  end.

Definition reserved_column (k : str) : bool :=
  existsb (str_eqb (lower k))
          [lit "timestamp"; lit "level"; lit "component"].

(** [[v for k, v in row.items() if v and k.lower() not in (...)]]: the
    key [None] of the extra fields has no [lower]. *)
Definition other_columns (row : csv_row) : result (list str) :=
  let vs :=
    flat_map (fun kv => match kv with
                        | (k, Some (c :: s)) =>
                            if reserved_column k then [] else [c :: s]
                        | _ => []
                        end) (named row) in
  match rest row with
  | [] => Ok vs
  | _ :: _ => Raise AttributeError
  end.

(** The line synthesized for a CSV data row. *)
Definition line_of_row (row : csv_row) : result str :=
  let ts := field_or (lit "timestamp") row (field_or (lit "time") row []) in
  let lvl := field_or (lit "level") row
               (field_or (lit "severity") row (lit "INFO")) in
  let comp := field_or (lit "component") row [] in
  msg <- match field (lit "message") row with
         | Some s => Ok s
         | None =>
             match field (lit "msg") row with
             | Some s => Ok s
             | None => vs <- other_columns row ;; Ok (join (lit " ") vs)
             end
         end ;;
  Ok (log_line ts lvl comp msg).

Fixpoint lines_of_rows (rows : list csv_row) : result (list str) :=
  match rows with
  | [] => Ok []
  | row :: r =>
      l <- line_of_row row ;;
      ls <- lines_of_rows r ;;
      Ok (l :: ls)
  end.

(** The body of the second [try]. *)
Definition csv_attempt (input_text : str) : result (option str) :=
  if contains (lit ",") input_text && contains [chr_nl] input_text then
    rows <- csv_dictreader input_text ;;
    ls <- lines_of_rows rows ;;
    match ls with
    | [] => Ok None
    | _ :: _ => Ok (Some (join [chr_nl] ls))
    end
  else Ok None.

(** [_normalize_input]: each [except Exception: pass] discards the
    exception of its block. *)
Definition normalize_input (input_text : str) : str :=
  match json_attempt input_text with
  | Ok (Some s) => s
  | _ =>
      match csv_attempt input_text with
      | Ok (Some s) => s
      | _ => input_text
      end
  end.

(** [AdvancedLogAnalyzer(raw_logs)] *)
Definition init (raw : str) : analyzer :=
  analyzer_of raw (normalize_input raw).

(** [AdvancedLogAnalyzer(raw_logs).analyze()] *)
Definition run (raw : str) : result report := analyze (init raw).

End Normalizer.

Arguments JNull {pyfloat}.
Arguments JBool {pyfloat} b.
Arguments JInt {pyfloat} z.
Arguments JStr {pyfloat} s.
Arguments JArr {pyfloat} l.
Arguments JObj {pyfloat} kv.
Arguments truthy {pyfloat}.
Arguments get {pyfloat}.
Arguments py_or {pyfloat}.
Arguments to_str {pyfloat}.
Arguments line_of_object {pyfloat}.
Arguments line_of_element {pyfloat}.
Arguments backend_line_of_object {pyfloat}.
Arguments json_attempt {pyfloat}.
Arguments normalize_input {pyfloat}.
Arguments init {pyfloat}.
Arguments run {pyfloat}.

(** ** Notions of the specification *)

(** [sub] occurs in [s]. *)
Definition substring (sub s : str) : Prop :=
  exists pre post, s = pre ++ sub ++ post.

(** [v] is what the pattern [m] matches at its leftmost occurrence in [s]:
    the pattern matches at some position, and at no position before it. *)
Definition first_occurrence {A : Type} (m : str -> option A) (s : str)
  (v : A) : Prop :=
  exists pre post,
    s = pre ++ post /\ m post = Some v /\
    forall pre' post', s = pre' ++ post' ->
      (length pre' < length pre)%nat -> m post' = None.

(** The first entry of the run that carries the signature of a cluster. *)
Definition first_with_signature (parsed_data : list entry) (c : cluster)
  : option entry :=
  find (fun e => str_eqb (entry_signature e)
                         (signature (c_level c) (c_pattern c)))
       parsed_data.

Definition error_total (clusters : list cluster) : Z :=
  sum_Z (map c_count
             (filter (fun c => is_error_level (c_level c)) clusters)).

Definition total_count (clusters : list cluster) : Z :=
  sum_Z (map c_count clusters).

(** The report of a run with nothing to analyse. *)
Definition empty_metrics : metrics :=
  mk_metrics (PyInt 0) 0 (PyInt 0) 0 0 [] [] [].

Definition empty_report : report :=
  mk_report 0 [] [] empty_metrics [] [] 100
            (prepare_llm_context [] [] empty_metrics).

(** The invariant of the clustering loop: a stored cluster keeps the
    message, the level and the masked message of the first entry that
    carries its key, and a key is stored as soon as an entry carries it. *)
Definition first_entry_kept (pd : list entry) (d : cluster_dict) : Prop :=
  (forall k c, In (k, c) d ->
     k = signature (c_level c) (c_pattern c) /\
     exists e,
       find (fun e' => str_eqb (entry_signature e') k) pd = Some e /\
       c_example c = e_message e /\ c_level c = e_level e /\
       c_pattern c = mask (e_message e)) /\
  (forall k, dict_mem k d = false ->
     find (fun e' => str_eqb (entry_signature e') k) pd = None).

(** The maximum that [_extract_metrics] reports for a series. *)
Definition run_wide_max (series : list Z) (v : Z) : Prop :=
  (series = [] /\ v = 0) \/
  (In v series /\ Forall (fun x => x <= v) series).

Definition mentions_latency (anomalies : list str) : Prop :=
  exists a, In a anomalies /\ substring (lit "Latency") a.

Definition has_database_error (clusters : list cluster) : Prop :=
  exists c, In c clusters /\ c_level c = lit "ERROR" /\
            substring (lit "database") (lower (c_pattern c)).

(** The reading of an entry for a pattern: the number its leftmost match
    shows, if the message has a match. *)
Definition contribution (m : str -> option str) (e : entry) : list Z :=
  match re_search m (e_message e) with
  | Some group1 => [int_of_digits group1]
  | None => []
  end.

(** [int] accepts the run of digits. *)
Definition convertible (ds : str) : bool :=
  Z.of_nat (length ds) <=? int_max_str_digits.

(** [int] accepts every reading the three patterns find in the entry. *)
Definition readable (e : entry) : bool :=
  forallb (fun m => match re_search m (e_message e) with
                    | Some group1 => convertible group1
                    | None => true
                    end)
          [match_cpu; match_mem; match_latency].

(** The texts of the readings of a pattern, one per entry that has one. *)
Definition readings (m : str -> option str) (parsed : list entry)
  : list str :=
  flat_map (fun e => match re_search m (e_message e) with
                     | Some group1 => [group1]
                     | None => []
                     end) parsed.

Definition two_readings_entry : entry :=
  mk_entry (lit "t") (lit "METRICS") (lit "System")
           (lit "CPU: 12% | MEM: 450MB | CPU: 99%") [].

(** An entry whose memory reading has [n] digits. *)
Definition long_reading_entry (n : nat) : entry :=
  mk_entry (lit "t") (lit "INFO") (lit "System")
           (lit "MEM: " ++ repeat "1"%char n) [].

Definition blank_example : str := lit "  " ++ [chr_nl] ++ lit " ".

(** No position of [s] is the start of a match of [m]; [prev] is the
    character before [s]. *)
Fixpoint free (m : matcher) (prev : option ascii) (s : str) : Prop :=
  match s with
  | [] => True
  | c :: t => m prev s = None /\ free m (Some c) t
  end.

(** Inputs used as examples below. *)
Definition twenty_one_messages : list string :=
  ["a"; "b"; "c"; "d"; "e"; "f"; "g"; "h"; "i"; "j"; "k"; "l"; "m"; "n";
   "o"; "p"; "q"; "r"; "s"; "t"; "u"]%string.

Definition twenty_one_lines : str :=
  join [chr_nl]
       (map (fun m => lit "[2025-01-01T00:00:00] [INFO] " ++ lit m)
            twenty_one_messages).

Definition one_line : str := lit "[2025-01-01T00:00:00] [INFO] App started".

Definition huge_cpu_lines : str :=
  lit "[t] [INFO] CPU: 1" ++ repeat "0"%char 400 ++ lit "%" ++ [chr_nl]
  ++ lit "[t] [INFO] CPU: 1%".

(** A CPU spike, and a database error with a slow answer. *)
Definition sample_text : str :=
  lit "[t1] [METRICS] CPU: 95%" ++ [chr_nl]
  ++ lit "[t2] [ERROR] Database timeout after latency: 2500ms".

Definition sample_report : report :=
  match analyze_text sample_text with
  | Ok r => r
  | Raise _ => empty_report
  end.

(** Ten failures that differ in a number only. *)
Definition ten_failures : str :=
  join [chr_nl]
       (map (fun n => lit "[T] [ERROR] Connection failed to db-"
                      ++ str_of_Z (Z.of_nat n))
            (seq 1 10)).

(** The line matches the pattern of [_parse_lines]. *)
Definition parses (line : str) : bool :=
  match parse_line line with
  | Some _ => true
  | None => false
  end.

Definition no_newline (s : str) : Prop := ~ In chr_nl s.

(** The entries of the run that carry the signature [k], in the order of
    the run. *)
Definition entries_with (k : str) (parsed_data : list entry) : list entry :=
  filter (fun e => str_eqb (entry_signature e) k) parsed_data.

Definition cluster_signature (c : cluster) : str :=
  signature (c_level c) (c_pattern c).

Definition entries_of_level (lvl : str) (parsed_data : list entry)
  : list entry :=
  filter (fun e => str_eqb (e_level e) lvl) parsed_data.

(** Neither end of the text is white space. *)
Definition trimmed (s : str) : Prop :=
  (forall c, hd_error s = Some c -> is_space c = false) /\
  (forall c, hd_error (rev s) = Some c -> is_space c = false).

(** Fields that the line pattern reads back as they were written: no
    closing bracket or newline in the timestamp and the component, a level
    of word characters, a message on one line with no white space at its
    ends. *)
Definition clean_fields (ts lvl comp msg : str) : Prop :=
  ~ In "]"%char ts /\ no_newline ts /\
  lvl <> [] /\ forallb is_word lvl = true /\
  ~ In "]"%char comp /\ no_newline comp /\
  msg <> [] /\ no_newline msg /\ trimmed msg.

(** The fields of one synthesized line, the line and the entry it is
    meant to give. *)
Definition fields := (str * str * str * str)%type.

Definition fields_clean (f : fields) : Prop :=
  let '(ts, lvl, comp, msg) := f in clean_fields ts lvl comp msg.

Definition line_of_fields (f : fields) : str :=
  let '(ts, lvl, comp, msg) := f in log_line ts lvl comp msg.

Definition entry_of_fields (f : fields) : entry :=
  let '(ts, lvl, comp, msg) := f in
  mk_entry ts lvl (component_or_system (Some comp)) msg
           (log_line ts lvl comp msg).

(** A second invariant of the clustering loop: the keys are distinct; a
    stored cluster counts the entries that carry its key and lists their
    timestamps in order; a key is stored as soon as an entry carries it. *)
Definition tally_kept (pd : list entry) (d : cluster_dict) : Prop :=
  NoDup (map fst d) /\
  (forall k c, In (k, c) d ->
     c_count c = Z.of_nat (length (entries_with k pd)) /\
     c_timestamps c = map e_timestamp (entries_with k pd) /\
     entries_with k pd <> []) /\
  (forall k, dict_mem k d = false -> entries_with k pd = []).

(** Descending by count. *)
Definition counts_descend (l : list cluster) : Prop :=
  StronglySorted (fun a b => c_count b <= c_count a) l.

(** The signatures of the run, each listed once, in the order of their
    first appearance. *)
Definition signatures_in_order (parsed_data : list entry) : list str :=
  fold_left (fun seen e => set_add (entry_signature e) seen) parsed_data [].

(** The invariant of the level counter: distinct keys, each counting the
    entries of its level, and a key for every level seen. *)
Definition levels_kept (pd : list entry) (d : list (str * Z)) : Prop :=
  NoDup (map fst d) /\
  (forall lvl n, In (lvl, n) d ->
     n = Z.of_nat (length (entries_of_level lvl pd)) /\ 1 <= n) /\
  (forall lvl, ~ In lvl (map fst d) -> entries_of_level lvl pd = []).

Section BackendNormalizer.

Variable pyfloat : Type.
Variable float_truthy : pyfloat -> bool.
Variable json_loads : str -> result (json pyfloat).
Variable json_dumps : json pyfloat -> str.
Variable py_str : json pyfloat -> str.
Variable csv_dictreader : str -> result (list csv_row).

(** The first [try] of the [normalize_input] that [backend.py] defines in
    its [/api/analyze] handler; it differs from [json_attempt] in the line
    for a top-level object only. *)
Definition backend_json_attempt (input_text : str) : result (option str) :=
  parsed <- json_loads input_text ;;
  match parsed with
  | JObj kv =>
      match dict_get (lit "logs") kv with
      | Some (JStr logs) => Ok (Some logs)
      | _ => Ok (Some (backend_line_of_object float_truthy json_dumps
                         py_str kv))
      end
  | JArr l =>
      Ok (Some (join [chr_nl]
                  (map (fun obj => match obj with
                                   | JObj kv =>
                                       line_of_element float_truthy
                                         json_dumps py_str kv
                                   | _ => to_str py_str obj
                                   end) l)))
  | _ => Ok None
  end.

(** [normalize_input] of [backend.py]; its CSV block is the one of
    [_normalize_input]. *)
Definition backend_normalize_input (input_text : str) : str :=
  match backend_json_attempt input_text with
  | Ok (Some s) => s
  | _ =>
      match csv_attempt csv_dictreader input_text with
      | Ok (Some s) => s
      | _ => input_text
      end
  end.

End BackendNormalizer.

Arguments backend_json_attempt {pyfloat}.
Arguments backend_normalize_input {pyfloat}.

(** The values that a CSV row contributes to a message made of its other
    columns. *)
Definition other_values (row : csv_row) : list str :=
  flat_map (fun kv => match kv with
                      | (k, Some (c :: s)) =>
                          if reserved_column k then [] else [c :: s]
                      | _ => []
                      end) (named row).

(** The fields of the line synthesized for a CSV row that has no field
    beyond its header. *)
Definition row_fields (row : csv_row) : fields :=
  (field_or (lit "timestamp") row (field_or (lit "time") row []),
   field_or (lit "level") row (field_or (lit "severity") row (lit "INFO")),
   field_or (lit "component") row [],
   match field (lit "message") row with
   | Some s => s
   | None =>
       match field (lit "msg") row with
       | Some s => s
       | None => join (lit " ") (other_values row)
       end
   end).

(** A row whose message has to be made of its other columns, and which has
    fields beyond the header. *)
Definition overlong_without_message (row : csv_row) : Prop :=
  rest row <> [] /\ field (lit "message") row = None /\
  field (lit "msg") row = None.

Section ElementFields.

Variable pyfloat : Type.
Variable float_truthy : pyfloat -> bool.
Variable json_dumps : json pyfloat -> str.
Variable py_str : json pyfloat -> str.

(** The fields of the line synthesized for an element of a top-level
    array; an element that is not an object has none. *)
Definition element_fields (obj : json pyfloat) : fields :=
  match obj with
  | JObj kv =>
      (to_str py_str
         (py_or float_truthy (get (lit "timestamp") kv)
                (py_or float_truthy (get (lit "time") kv) (JStr []))),
       to_str py_str
         (py_or float_truthy (get (lit "level") kv) (JStr (lit "INFO"))),
       to_str py_str
         (py_or float_truthy (get (lit "component") kv) (JStr [])),
       to_str py_str
         (py_or float_truthy (get (lit "message") kv)
                (py_or float_truthy (get (lit "msg") kv)
                       (JStr (json_dumps (JObj kv))))))
  | _ => ([], [], [], [])
  end.

End ElementFields.

Arguments element_fields {pyfloat}.

(** A message that no masking rule can touch: no digit, no single quote,
    and too short for the UUID rule. *)
Definition plain_message (m : str) : Prop :=
  forallb (fun c => negb (is_digit c) && negb (Ascii.eqb c chr_quote)) m = true
  /\ (length m < 36)%nat.

(** Runtimes and inputs used as examples below. *)
Definition no_json : str -> result (json unit) :=
  fun _ => Raise JSONDecodeError.

Definition csv_example : str :=
  lit "timestamp,level,component,message" ++ [chr_nl]
  ++ lit "2025-11-27T14:02:00,INFO,service,Started successfully".

Definition csv_example_rows : list csv_row :=
  [mk_row [(lit "timestamp", Some (lit "2025-11-27T14:02:00"));
           (lit "level", Some (lit "INFO"));
           (lit "component", Some (lit "service"));
           (lit "message", Some (lit "Started successfully"))] []].

Definition overlong_rows : list csv_row :=
  [mk_row [(lit "a", Some (lit "1"))] [lit "2"]].

Definition object_example : json unit :=
  JObj [(lit "timestamp", JStr (lit "2025-11-27T14:01:00"));
        (lit "date", JStr (lit "2025-11-27"));
        (lit "message", JStr (lit "User 123 logged in"))].

Definition array_example : list (json unit) :=
  [JObj [(lit "timestamp", JStr (lit "2025-11-27T14:01:00"));
         (lit "level", JStr (lit "INFO"));
         (lit "component", JStr (lit "auth"));
         (lit "message", JStr (lit "User 123 logged in"))]].

(** * Properties *)

(** ** Strings *)

Lemma str_eqb_eq (a b : str) : str_eqb a b = true <-> a = b.
Proof.
  revert b; induction a as [|x a IH]; intros [|y b]; simpl;
    try (split; [discriminate | discriminate]); try tauto.
  rewrite andb_true_iff, Ascii.eqb_eq, IH.
  split; [intros [-> ->]; reflexivity | intros H; injection H; auto].
Qed.

Lemma str_eqb_refl (a : str) : str_eqb a a = true.
Proof. apply str_eqb_eq; reflexivity. Qed.

Lemma str_eqb_neq (a b : str) : str_eqb a b = false <-> a <> b.
Proof.
  rewrite <- str_eqb_eq. destruct (str_eqb a b); split; congruence.
Qed.

Lemma starts_with_spec (p s : str) :
  starts_with p s = true <-> exists post, s = p ++ post.
Proof.
  revert s; induction p as [|x p IH]; intros s; simpl.
  - split; [exists s; reflexivity | reflexivity].
  - destruct s as [|y s].
    + split; [discriminate | intros [post H]; discriminate].
    + rewrite andb_true_iff, Ascii.eqb_eq, IH. split.
      * intros [-> [post ->]]. exists post; reflexivity.
      * intros [post H]. injection H as -> ->. split; [reflexivity|].
        exists post; reflexivity.
Qed.

Lemma contains_spec (sub s : str) :
  contains sub s = true <-> substring sub s.
Proof.
  unfold substring. induction s as [|c s IH].
  - simpl. rewrite orb_false_r, starts_with_spec. split.
    + intros [post H]. exists [], post. exact H.
    + intros [pre [post H]]. destruct pre as [|x pre]; [|discriminate].
      exists post. exact H.
  - cbn [contains]. rewrite orb_true_iff, starts_with_spec, IH. split.
    + intros [[post H] | [pre [post H]]].
      * exists [], post. exact H.
      * exists (c :: pre), post. rewrite H. reflexivity.
    + intros [pre [post H]]. destruct pre as [|x pre].
      * left. exists post. exact H.
      * right. injection H as _ H. exists pre, post. exact H.
Qed.

(** ** The clusterer *)

Lemma dict_update_mem k f d k' :
  dict_mem k' (dict_update k f d) = dict_mem k' d.
Proof.
  induction d as [|[k0 c] d IH]; simpl; [reflexivity|].
  destruct (str_eqb k k0); simpl; [reflexivity|]. rewrite IH. reflexivity.
Qed.

Lemma dict_mem_app k d d' :
  dict_mem k (d ++ d') = dict_mem k d || dict_mem k d'.
Proof.
  induction d as [|[k0 c] d IH]; simpl; [reflexivity|].
  rewrite IH, orb_assoc. reflexivity.
Qed.

Lemma dict_update_absent k f d :
  dict_mem k d = false -> dict_update k f d = d.
Proof.
  induction d as [|[k0 c] d IH]; simpl; [reflexivity|].
  intros H. apply orb_false_iff in H as [H1 H2]. rewrite H1, IH; auto.
Qed.

Lemma dict_update_app_absent k f d d' :
  dict_mem k d = false ->
  dict_update k f (d ++ d') = d ++ dict_update k f d'.
Proof.
  induction d as [|[k0 c] d IH]; simpl; [reflexivity|].
  intros H. apply orb_false_iff in H as [H1 H2]. rewrite H1, IH; auto.
Qed.

Lemma total_count_app l l' :
  total_count (l ++ l') = total_count l + total_count l'.
Proof.
  unfold total_count. induction l as [|c l IH]; simpl; [reflexivity|].
  rewrite IH. lia.
Qed.

Lemma dict_update_count k ts d :
  dict_mem k d = true ->
  total_count (map snd (dict_update k (fold_in ts) d))
  = total_count (map snd d) + 1.
Proof.
  unfold total_count.
  induction d as [|[k0 c] d IH]; simpl; [discriminate|].
  destruct (str_eqb k k0); simpl.
  - intros _. lia.
  - intros H. rewrite IH by exact H. lia.
Qed.

Lemma cluster_step_count d e :
  total_count (map snd (cluster_step d e)) = total_count (map snd d) + 1.
Proof.
  unfold cluster_step.
  destruct (dict_mem _ d) eqn:M.
  - apply dict_update_count; exact M.
  - rewrite dict_update_count.
    + rewrite map_app, total_count_app. unfold total_count. simpl. lia.
    + rewrite dict_mem_app. simpl. rewrite str_eqb_refl.
      rewrite orb_true_r. reflexivity.
Qed.

Lemma fold_cluster_step_count pd d :
  total_count (map snd (fold_left cluster_step pd d))
  = total_count (map snd d) + Z.of_nat (length pd).
Proof.
  revert d; induction pd as [|e pd IH]; intros d.
  - simpl. lia.
  - cbn [fold_left]. rewrite IH, cluster_step_count.
    cbn [length]. lia.
Qed.

Lemma all_clusters_count pd :
  total_count (map snd (all_clusters pd)) = Z.of_nat (length pd).
Proof.
  unfold all_clusters. rewrite fold_cluster_step_count. reflexivity.
Qed.

Lemma insert_by_count_perm c l : Permutation (c :: l) (insert_by_count c l).
Proof.
  induction l as [|y l IH]; simpl; [apply Permutation_refl|].
  destruct (c_count c <? c_count y).
  - eapply Permutation_trans; [apply perm_swap|].
    apply perm_skip. exact IH.
  - apply Permutation_refl.
Qed.

Lemma sort_by_count_perm l : Permutation l (sort_by_count l).
Proof.
  induction l as [|c l IH]; simpl; [constructor|].
  eapply Permutation_trans; [|apply insert_by_count_perm].
  apply perm_skip. exact IH.
Qed.

Lemma total_count_perm l l' :
  Permutation l l' -> total_count l = total_count l'.
Proof.
  unfold total_count. induction 1; simpl; lia.
Qed.

(** Every stored cluster has been folded into at least once. *)
Lemma dict_update_positive k ts d :
  Forall (fun kc => 0 <= c_count (snd kc)) d ->
  Forall (fun kc => 0 <= c_count (snd kc)) (dict_update k (fold_in ts) d).
Proof.
  induction 1 as [|[k0 c] d H0 H IH]; simpl; [constructor|].
  destruct (str_eqb k k0); constructor; simpl in *; auto; lia.
Qed.

Lemma cluster_step_nonneg d e :
  Forall (fun kc => 0 <= c_count (snd kc)) d ->
  Forall (fun kc => 0 <= c_count (snd kc)) (cluster_step d e).
Proof.
  intros H. unfold cluster_step. apply dict_update_positive.
  destruct (dict_mem _ d); [exact H|].
  apply Forall_app. split; [exact H|]. constructor; [simpl; lia|constructor].
Qed.

Lemma all_clusters_nonneg pd :
  Forall (fun kc => 0 <= c_count (snd kc)) (all_clusters pd).
Proof.
  unfold all_clusters.
  assert (G : forall d, Forall (fun kc => 0 <= c_count (snd kc)) d ->
            Forall (fun kc => 0 <= c_count (snd kc))
                   (fold_left cluster_step pd d)).
  { induction pd as [|e pd IH]; intros d H; simpl; [exact H|].
    apply IH, cluster_step_nonneg, H. }
  apply G. constructor.
Qed.

Lemma total_count_nonneg l :
  Forall (fun c => 0 <= c_count c) l -> 0 <= total_count l.
Proof.
  unfold total_count. induction 1; simpl; lia.
Qed.

Lemma total_count_firstn n l :
  Forall (fun c => 0 <= c_count c) l ->
  total_count (firstn n l) <= total_count l.
Proof.
  intros H. rewrite <- (firstn_skipn n l) at 2.
  rewrite total_count_app.
  assert (0 <= total_count (skipn n l)); [|lia].
  apply total_count_nonneg. rewrite <- (firstn_skipn n l) in H.
  apply Forall_app in H. tauto.
Qed.

Lemma sorted_clusters_nonneg pd :
  Forall (fun c => 0 <= c_count c)
         (sort_by_count (map snd (all_clusters pd))).
Proof.
  assert (H : Forall (fun c => 0 <= c_count c) (map snd (all_clusters pd))).
  { apply Forall_map. apply all_clusters_nonneg. }
  rewrite Forall_forall in *. intros c Hc. apply H.
  eapply Permutation_in; [apply Permutation_sym, sort_by_count_perm|].
  exact Hc.
Qed.

Lemma cluster_logs_count_le pd :
  total_count (cluster_logs pd) <= Z.of_nat (length pd).
Proof.
  unfold cluster_logs.
  rewrite <- (all_clusters_count pd).
  rewrite (total_count_perm _ _
             (sort_by_count_perm (map snd (all_clusters pd)))).
  apply total_count_firstn, sorted_clusters_nonneg.
Qed.

Lemma cluster_logs_count_eq pd :
  (length (all_clusters pd) <= 20)%nat ->
  total_count (cluster_logs pd) = Z.of_nat (length pd).
Proof.
  intros H. unfold cluster_logs. rewrite firstn_all2.
  - rewrite <- (total_count_perm _ _ (sort_by_count_perm _)).
    apply all_clusters_count.
  - rewrite <- (Permutation_length (sort_by_count_perm _)).
    rewrite length_map. exact H.
Qed.

(** What [analyze] reads off the analyzer. *)
Lemma analyze_text_inv text r :
  analyze_text text = Ok r ->
  let pd := parse_lines (lines_of text) in
  exists m,
    extract_metrics pd = Ok m /\
    r = mk_report (Z.of_nat (length pd)) (count_levels pd) (component_set pd)
          m (detect_anomalies m)
          (find_correlations (detect_anomalies m) (cluster_logs pd))
          (calculate_health (cluster_logs pd) (detect_anomalies m))
          (prepare_llm_context (cluster_logs pd) (detect_anomalies m) m).
Proof.
  unfold analyze_text, analyze, analyzer_of, parse_lines_into. simpl.
  destruct (extract_metrics _) as [m|e]; simpl; [|discriminate].
  intros H. injection H as <-. exists m. split; reflexivity.
Qed.

(** C1 (as the code has it): the counts of the clusters that a run returns
    never add up to more than [parsed_entries], and they add up to exactly
    [parsed_entries] whenever the parsed entries carry at most twenty
    distinct signatures, so that the cut to the twenty most frequent
    clusters removes nothing. *)
Theorem returned_counts_sum (text : str) (r : report) :
  analyze_text text = Ok r ->
  total_count (clusters_of_text text) <= parsed_entries r /\
  ((length (all_clusters (parse_lines (lines_of text))) <= 20)%nat ->
   total_count (clusters_of_text text) = parsed_entries r).
Proof.
  intros H. apply analyze_text_inv in H as [m [_ ->]]. simpl.
  unfold clusters_of_text. split.
  - apply cluster_logs_count_le.
  - apply cluster_logs_count_eq.
Qed.

Lemma returned_counts_sum_witness :
  total_count (clusters_of_text one_line) <= 1 /\
  ((length (all_clusters (parse_lines (lines_of one_line))) <= 20)%nat ->
   total_count (clusters_of_text one_line) = 1).
Proof.
  apply (returned_counts_sum one_line
           (mk_report 1 (count_levels (parse_lines (lines_of one_line)))
              (component_set (parse_lines (lines_of one_line)))
              empty_metrics [] [] 100
              (prepare_llm_context (clusters_of_text one_line) []
                 empty_metrics))).
  vm_compute. reflexivity.
Defined.

(** C1 fails as stated: twenty-one lines of the expected shape with
    twenty-one different messages give [parsed_entries = 21], while the
    twenty returned clusters count twenty entries. *)
Lemma returned_counts_sum_counterexample :
  Forall (fun l => parse_line l <> None) (lines_of twenty_one_lines) /\
  exists r,
    analyze_text twenty_one_lines = Ok r /\
    parsed_entries r = 21 /\
    total_count (clusters_of_text twenty_one_lines) = 20 /\
    total_count (clusters_of_text twenty_one_lines) <> parsed_entries r.
Proof.
  split.
  - rewrite Forall_forall. intros l Hl.
    assert (E : forallb (fun l => match parse_line l with
                                  | Some _ => true | None => false end)
                        (lines_of twenty_one_lines) = true)
      by (vm_compute; reflexivity).
    rewrite forallb_forall in E. specialize (E l Hl).
    destruct (parse_line l); [discriminate | discriminate].
  - destruct (analyze_text twenty_one_lines) as [r|e] eqn:E.
    + exists r. split; [reflexivity|].
      assert (P : parsed_entries r = 21).
      { apply analyze_text_inv in E as [m [_ ->]]. vm_compute. reflexivity. }
      assert (T : total_count (clusters_of_text twenty_one_lines) = 20)
        by (vm_compute; reflexivity).
      rewrite P, T. repeat split; discriminate.
    + exfalso. vm_compute in E. discriminate.
Qed.

Lemma dict_update_in k ts d k' c' :
  In (k', c') (dict_update k (fold_in ts) d) ->
  exists c, In (k', c) d /\ c_example c' = c_example c /\
            c_level c' = c_level c /\ c_pattern c' = c_pattern c.
Proof.
  induction d as [|[k0 c0] d IH]; simpl; [tauto|].
  destruct (str_eqb k k0); simpl.
  - intros [H | H].
    + injection H as <- <-. exists c0. simpl. auto.
    + exists c'. auto.
  - intros [H | H].
    + injection H as <- <-. exists c0. auto.
    + destruct (IH H) as [c [Hc Hs]]. exists c. auto.
Qed.

Lemma find_app_some {A : Type} (p : A -> bool) l l' x :
  find p l = Some x -> find p (l ++ l') = Some x.
Proof.
  induction l as [|y l IH]; simpl; [discriminate|].
  destruct (p y); auto.
Qed.

Lemma find_app_none {A : Type} (p : A -> bool) l l' :
  find p l = None -> find p (l ++ l') = find p l'.
Proof.
  induction l as [|y l IH]; simpl; [reflexivity|].
  destruct (p y); [discriminate | auto].
Qed.

Lemma cluster_step_keeps pd d e :
  first_entry_kept pd d -> first_entry_kept (pd ++ [e]) (cluster_step d e).
Proof.
  intros [Hin Hout]. unfold cluster_step.
  change (signature (e_level e) (mask (e_message e)))
    with (entry_signature e).
  set (sig := entry_signature e).
  destruct (dict_mem sig d) eqn:M; split.
  - intros k c Hc. apply dict_update_in in Hc as [c0 [Hc0 [E1 [E2 E3]]]].
    destruct (Hin k c0 Hc0) as [Hk [e0 [Hf [F1 [F2 F3]]]]].
    split; [congruence|]. exists e0.
    split; [apply find_app_some; exact Hf|]. repeat split; congruence.
  - intros k Hk. rewrite dict_update_mem in Hk.
    rewrite find_app_none by (apply Hout; exact Hk). cbn [find].
    fold sig.
    destruct (str_eqb sig k) eqn:Ek; [|reflexivity].
    apply str_eqb_eq in Ek. congruence.
  - intros k c Hc. apply dict_update_in in Hc as [c0 [Hc0 [E1 [E2 E3]]]].
    apply in_app_or in Hc0 as [Hc0 | [Hc0 | []]].
    + destruct (Hin k c0 Hc0) as [Hk [e0 [Hf [F1 [F2 F3]]]]].
      split; [congruence|]. exists e0.
      split; [apply find_app_some; exact Hf|]. repeat split; congruence.
    + injection Hc0 as <- <-. cbn [c_example c_level c_pattern] in *.
      split; [unfold sig, entry_signature; congruence|]. exists e.
      rewrite find_app_none by (apply Hout; exact M). cbn [find].
      fold sig. rewrite str_eqb_refl. auto.
  - intros k Hk. rewrite dict_update_mem, dict_mem_app in Hk.
    apply orb_false_iff in Hk as [Hk1 Hk2]. cbn [dict_mem] in Hk2.
    rewrite orb_false_r in Hk2.
    rewrite find_app_none by (apply Hout; exact Hk1). cbn [find].
    fold sig.
    destruct (str_eqb sig k) eqn:Ek; [|reflexivity].
    apply str_eqb_eq in Ek. subst k. rewrite str_eqb_refl in Hk2.
    discriminate.
Qed.

Lemma all_clusters_keep pd : first_entry_kept pd (all_clusters pd).
Proof.
  induction pd as [|e pd IH] using rev_ind.
  - split; [intros k c []| reflexivity].
  - unfold all_clusters. rewrite fold_left_app. simpl.
    apply cluster_step_keeps. exact IH.
Qed.

Lemma in_firstn {A : Type} (n : nat) (l : list A) x :
  In x (firstn n l) -> In x l.
Proof.
  intros H. rewrite <- (firstn_skipn n l). apply in_or_app. left. exact H.
Qed.

Lemma cluster_logs_in pd c :
  In c (cluster_logs pd) -> exists k, In (k, c) (all_clusters pd).
Proof.
  unfold cluster_logs. intros H.
  apply in_firstn in H.
  eapply Permutation_in in H; [|apply Permutation_sym, sort_by_count_perm].
  apply in_map_iff in H as [[k c0] [E H]]. simpl in E. subst c0.
  exists k. exact H.
Qed.

(** C3 (as the code has it): the [example] of a returned cluster is the
    message field, unmasked, of the first parsed entry that carries the
    cluster's signature; entries folded in later leave it as it is. *)
Theorem example_is_first_message (pd : list entry) (c : cluster) :
  In c (cluster_logs pd) ->
  exists e,
    first_with_signature pd c = Some e /\
    c_example c = e_message e /\
    forall ts, c_example (fold_in ts c) = e_message e.
Proof.
  intros H. apply cluster_logs_in in H as [k H].
  destruct (all_clusters_keep pd) as [Hin _].
  destruct (Hin k c H) as [Hk [e [Hf [E _]]]].
  exists e. unfold first_with_signature. rewrite <- Hk.
  split; [exact Hf|]. split; [exact E|]. intros ts. exact E.
Qed.

Lemma example_is_first_message_witness :
  exists e,
    first_with_signature (parse_lines (lines_of one_line))
      (mk_cluster (lit "App started") (lit "INFO") 1 (lit "App started")
                  [lit "2025-01-01T00:00:00"]) = Some e /\
    lit "App started" = e_message e /\
    forall ts : str, lit "App started" = e_message e.
Proof.
  apply (example_is_first_message (parse_lines (lines_of one_line))
           (mk_cluster (lit "App started") (lit "INFO") 1 (lit "App started")
                       [lit "2025-01-01T00:00:00"])).
  vm_compute. left. reflexivity.
Defined.

(** C3 fails as stated: on the one-line input the cluster's example is the
    message "App started", not the raw line it was parsed from. *)
Lemma example_is_raw_line_counterexample :
  ~ (forall c, In c (cluster_logs (parse_lines (lines_of one_line))) ->
       exists e,
         first_with_signature (parse_lines (lines_of one_line)) c = Some e /\
         c_example c = e_raw e).
Proof.
  intros H.
  destruct (H (mk_cluster (lit "App started") (lit "INFO") 1
                 (lit "App started") [lit "2025-01-01T00:00:00"]))
    as [e [Hf He]].
  - vm_compute. left. reflexivity.
  - vm_compute in Hf. injection Hf as <-. vm_compute in He. discriminate.
Qed.

(** ** The health scorer *)

Lemma error_total_nonneg pd : 0 <= error_total (cluster_logs pd).
Proof.
  unfold error_total. fold (total_count (filter
    (fun c => is_error_level (c_level c)) (cluster_logs pd))).
  apply total_count_nonneg. rewrite Forall_forall.
  intros c Hc. apply filter_In in Hc as [Hc _].
  apply cluster_logs_in in Hc as [k Hc].
  pose proof (all_clusters_nonneg pd) as F. rewrite Forall_forall in F.
  apply (F (k, c) Hc).
Qed.

(** C5: the health score of a report is
    [max(0, 100 - 5 * errors - 10 * anomalies)], where [errors] adds up the
    counts of the returned clusters of level ERROR or CRITICAL, in integer
    arithmetic; it lies between 0 and 100. *)
Theorem health_score_formula (text : str) (r : report) :
  analyze_text text = Ok r ->
  health_score r
  = Z.max 0 (100 - 5 * error_total (clusters_of_text text)
                 - 10 * Z.of_nat (length (anomalies r))) /\
  0 <= health_score r <= 100.
Proof.
  intros H. apply analyze_text_inv in H as [m [_ ->]].
  cbn [health_score anomalies].
  unfold clusters_of_text, calculate_health.
  fold (error_total (cluster_logs (parse_lines (lines_of text)))).
  pose proof (error_total_nonneg (parse_lines (lines_of text))).
  split; lia.
Qed.

Lemma health_score_formula_witness :
  health_score sample_report
  = Z.max 0 (100 - 5 * error_total (clusters_of_text sample_text)
                 - 10 * Z.of_nat (length (anomalies sample_report))) /\
  0 <= health_score sample_report <= 100.
Proof.
  apply (health_score_formula sample_text sample_report).
  vm_compute. reflexivity.
Defined.

(** Ten failures of one shape: one cluster counting ten, health score
    [100 - 10 * 5]. *)
Example ten_failures_one_cluster :
  map (fun c => (c_pattern c, c_level c, c_count c))
      (clusters_of_text ten_failures)
  = [(lit "Connection failed to db-{NUM}", lit "ERROR", 10)] /\
  exists r, analyze_text ten_failures = Ok r /\ health_score r = 50.
Proof.
  split; [vm_compute; reflexivity|].
  eexists. split; [vm_compute; reflexivity | reflexivity].
Qed.

(** One informational line: one entry, no anomaly, health score 100. *)
Example one_line_report :
  exists r, analyze_text one_line = Ok r /\
            parsed_entries r = 1 /\ log_levels r = [(lit "INFO", 1)] /\
            anomalies r = [] /\ health_score r = 100.
Proof. eexists. split; [vm_compute; reflexivity | repeat split]. Qed.

(** ** The anomaly detector *)

Lemma anomaly_texts_differ v w : cpu_anomaly v <> latency_anomaly w.
Proof. unfold cpu_anomaly, latency_anomaly. cbn. discriminate. Qed.

Lemma fold_max_spec l x :
  In (fold_left Z.max l x) (x :: l) /\
  Forall (fun v => v <= fold_left Z.max l x) (x :: l).
Proof.
  revert x; induction l as [|y l IH]; intros x; simpl.
  - split; [left; reflexivity | repeat constructor; lia].
  - destruct (IH (Z.max x y)) as [Hin Hall]. split.
    + destruct Hin as [Hin | Hin]; [|right; right; exact Hin].
      rewrite <- Hin. destruct (Z.max_spec x y) as [[_ ->] | [_ ->]]; auto.
    + inversion Hall as [|? ? H1 H2]; subst.
      repeat constructor; try lia. exact H2.
Qed.

Lemma max_or_zero_spec l v : max_or_zero l = Ok v -> run_wide_max l v.
Proof.
  destruct l as [|x l]; simpl; intros H; injection H as <-.
  - left. auto.
  - right. apply fold_max_spec.
Qed.

Lemma extract_metrics_max pd m :
  extract_metrics pd = Ok m ->
  run_wide_max (cpu_series m) (max_cpu m) /\
  run_wide_max (latency_series m) (max_latency m).
Proof.
  unfold extract_metrics.
  destruct (metric_series pd) as [[[cpu mem] lat]|];
    [|discriminate]; cbn [bind].
  destruct (avg_or_zero cpu) as [a1|]; [|discriminate]; cbn [bind].
  destruct (max_or_zero cpu) as [m1|] eqn:E1; [|discriminate]; cbn [bind].
  destruct (avg_or_zero mem) as [a2|]; [|discriminate]; cbn [bind].
  destruct (max_or_zero lat) as [m2|] eqn:E2; [|discriminate]; cbn [bind].
  intros H. injection H as <-. cbn.
  split; apply max_or_zero_spec; assumption.
Qed.

(** C8: the anomalies of a run are the CPU-spike text, present exactly when
    the run-wide maximum of the CPU series exceeds 80, and the high-latency
    text, present exactly when the run-wide maximum of the latency series
    exceeds 2000, each naming the maximum; there is nothing else in the
    list, so it has at most two elements. *)
Theorem anomalies_are_threshold_breaches (text : str) (r : report) :
  analyze_text text = Ok r ->
  let m := metrics_summary r in
  run_wide_max (cpu_series m) (max_cpu m) /\
  run_wide_max (latency_series m) (max_latency m) /\
  (In (cpu_anomaly (max_cpu m)) (anomalies r) <-> 80 < max_cpu m) /\
  (In (latency_anomaly (max_latency m)) (anomalies r)
   <-> 2000 < max_latency m) /\
  (forall a, In a (anomalies r) ->
     a = cpu_anomaly (max_cpu m) \/ a = latency_anomaly (max_latency m)) /\
  (length (anomalies r) <= 2)%nat.
Proof.
  intros H. apply analyze_text_inv in H as [m [Hm ->]].
  cbn [metrics_summary anomalies]. cbv zeta.
  destruct (extract_metrics_max _ _ Hm) as [M1 M2].
  split; [exact M1|]. split; [exact M2|].
  pose proof (anomaly_texts_differ (max_cpu m) (max_latency m)) as D.
  unfold detect_anomalies.
  destruct (Z.ltb_spec 80 (max_cpu m)) as [C | C];
    destruct (Z.ltb_spec 2000 (max_latency m)) as [L | L]; cbn;
    repeat split; try tauto; try lia; intuition (try congruence; try lia).
Qed.

Lemma anomalies_are_threshold_breaches_witness :
  let m := metrics_summary sample_report in
  run_wide_max (cpu_series m) (max_cpu m) /\
  run_wide_max (latency_series m) (max_latency m) /\
  (In (cpu_anomaly (max_cpu m)) (anomalies sample_report)
   <-> 80 < max_cpu m) /\
  (In (latency_anomaly (max_latency m)) (anomalies sample_report)
   <-> 2000 < max_latency m) /\
  (forall a, In a (anomalies sample_report) ->
     a = cpu_anomaly (max_cpu m) \/ a = latency_anomaly (max_latency m)) /\
  (length (anomalies sample_report) <= 2)%nat.
Proof.
  apply (anomalies_are_threshold_breaches sample_text sample_report).
  vm_compute. reflexivity.
Defined.

(** Both thresholds are passed on the sample. *)
Example sample_anomalies :
  anomalies sample_report
  = [lit "Critical CPU Spike detected: 95%";
     lit "High Latency detected: 2500ms"].
Proof. vm_compute. reflexivity. Qed.

(** ** The correlation engine *)

Lemma find_correlations_spec anoms clusters :
  (mentions_latency anoms /\ has_database_error clusters /\
   find_correlations anoms clusters = [correlation_text]) \/
  (~ (mentions_latency anoms /\ has_database_error clusters) /\
   find_correlations anoms clusters = []).
Proof.
  unfold find_correlations.
  set (hl := existsb _ anoms). set (hd := existsb _ clusters).
  assert (Hl : hl = true <-> mentions_latency anoms).
  { unfold hl, mentions_latency. rewrite existsb_exists.
    split; intros [a [Ha Hs]]; exists a; split; auto.
    - rewrite orb_diag in Hs. apply contains_spec. exact Hs.
    - rewrite orb_diag. apply contains_spec. exact Hs. }
  assert (Hd : hd = true <-> has_database_error clusters).
  { unfold hd, has_database_error. rewrite existsb_exists.
    split; intros [c [Hc Hs]]; exists c; split; auto.
    - apply andb_true_iff in Hs as [H1 H2].
      split; [apply str_eqb_eq; exact H2 | apply contains_spec; exact H1].
    - destruct Hs as [H1 H2]. apply andb_true_iff.
      split; [apply contains_spec; exact H2 | apply str_eqb_eq; exact H1]. }
  destruct hl, hd; cbn [andb app].
  - left. split; [apply Hl | split; [apply Hd|]]; reflexivity.
  - right. split; [|reflexivity]. intros [_ H]. apply Hd in H. discriminate.
  - right. split; [|reflexivity]. intros [H _]. apply Hl in H. discriminate.
  - right. split; [|reflexivity]. intros [H _]. apply Hl in H. discriminate.
Qed.

(** C7: the correlations of a report hold the one fixed statement exactly
    when an anomaly text contains "Latency" and a returned cluster has the
    level "ERROR" and a pattern whose lower-case form contains "database";
    otherwise the list is empty; it never has more than one element. *)
Theorem correlation_rule (text : str) (r : report) :
  analyze_text text = Ok r ->
  (correlations r = [correlation_text] <->
   mentions_latency (anomalies r) /\
   has_database_error (clusters_of_text text)) /\
  (~ (mentions_latency (anomalies r) /\
      has_database_error (clusters_of_text text)) ->
   correlations r = []) /\
  (length (correlations r) <= 1)%nat.
Proof.
  intros H. apply analyze_text_inv in H as [m [_ ->]].
  cbn [correlations anomalies]. unfold clusters_of_text.
  set (pd := parse_lines (lines_of text)).
  destruct (find_correlations_spec (detect_anomalies m) (cluster_logs pd))
    as [[Hl [Hd ->]] | [Hno ->]].
  - split; [|split].
    + split; [intros _; split; assumption | reflexivity].
    + intros N. exfalso. apply N. split; assumption.
    + simpl. lia.
  - split; [|split].
    + split; [discriminate | intros C; exfalso; exact (Hno C)].
    + reflexivity.
    + simpl. lia.
Qed.

Lemma correlation_rule_witness :
  (correlations sample_report = [correlation_text] <->
   mentions_latency (anomalies sample_report) /\
   has_database_error (clusters_of_text sample_text)) /\
  (~ (mentions_latency (anomalies sample_report) /\
      has_database_error (clusters_of_text sample_text)) ->
   correlations sample_report = []) /\
  (length (correlations sample_report) <= 1)%nat.
Proof.
  apply (correlation_rule sample_text sample_report).
  vm_compute. reflexivity.
Defined.

(** The sample has the correlation. *)
Example sample_correlation : correlations sample_report = [correlation_text].
Proof. vm_compute. reflexivity. Qed.

(** ** The metric extractor *)

Lemma re_search_first {A : Type} (m : str -> option A) (s : str) (v : A) :
  re_search m s = Some v -> first_occurrence m s v.
Proof.
  unfold first_occurrence. induction s as [|c s IH]; simpl.
  - destruct (m []) eqn:E; [|discriminate]. intros H. injection H as ->.
    exists [], []. repeat split; auto. simpl. intros; lia.
  - destruct (m (c :: s)) eqn:E.
    + intros H. injection H as ->. exists [], (c :: s).
      repeat split; auto. simpl. intros; lia.
    + intros H. destruct (IH H) as [pre [post [E1 [E2 E3]]]].
      exists (c :: pre), post. subst s. repeat split; auto.
      intros pre' post' Hs Hl. destruct pre' as [|c' pre'].
      * simpl in Hs. subst post'. exact E.
      * injection Hs as _ Hs. apply (E3 pre' post' Hs). simpl in Hl. lia.
Qed.

Lemma re_search_complete {A : Type} (m : str -> option A) (s : str)
  (v : A) :
  first_occurrence m s v -> re_search m s = Some v.
Proof.
  intros [pre [post [E [Hm Hmin]]]]. revert s E Hmin.
  induction pre as [|c pre IH]; intros s E Hmin.
  - cbn [app] in E. subst s. destruct post; cbn [re_search]; rewrite Hm;
      reflexivity.
  - subst s. cbn [app re_search].
    rewrite (Hmin [] (c :: pre ++ post) eq_refl) by (cbn [length]; lia).
    apply IH; [reflexivity|]. intros pre' post' E' Hl.
    apply (Hmin (c :: pre') post'); [cbn [app]; f_equal; exact E'|].
    cbn [length]. lia.
Qed.

Lemma re_search_none {A : Type} (m : str -> option A) (s : str) :
  (forall pre post, s = pre ++ post -> m post = None) ->
  re_search m s = None.
Proof.
  induction s as [|c s IH]; intros H; cbn [re_search].
  - rewrite (H [] [] eq_refl). reflexivity.
  - rewrite (H [] (c :: s) eq_refl). apply IH. intros pre post E.
    apply (H (c :: pre) post). cbn [app]. f_equal. exact E.
Qed.

Lemma py_int_convertible ds :
  py_int ds = if convertible ds then Ok (int_of_digits ds)
              else Raise ValueError.
Proof.
  unfold py_int, convertible.
  destruct (Z.ltb_spec int_max_str_digits (Z.of_nat (length ds)));
    destruct (Z.leb_spec (Z.of_nat (length ds)) int_max_str_digits);
    try reflexivity; lia.
Qed.

(** One step of the loop: each series grows by the entry's reading, unless
    [int] refuses one of them. *)
Lemma metrics_step_readable cpu mem lat e :
  metrics_step (cpu, mem, lat) e
  = if readable e
    then Ok (cpu ++ contribution match_cpu e,
             mem ++ contribution match_mem e,
             lat ++ contribution match_latency e)
    else Raise ValueError.
Proof.
  unfold metrics_step, readable, contribution. cbn [forallb].
  destruct (re_search match_cpu (e_message e)) as [d1|];
    destruct (re_search match_mem (e_message e)) as [d2|];
    destruct (re_search match_latency (e_message e)) as [d3|];
    cbn [append_match bind]; rewrite ?py_int_convertible;
    repeat match goal with
           | |- context [convertible ?d] => destruct (convertible d)
           end;
    cbn [bind andb]; rewrite ?app_nil_r; reflexivity.
Qed.

Lemma metrics_loop_readable pd cpu mem lat :
  metrics_loop pd (cpu, mem, lat)
  = if forallb readable pd
    then Ok (cpu ++ flat_map (contribution match_cpu) pd,
             mem ++ flat_map (contribution match_mem) pd,
             lat ++ flat_map (contribution match_latency) pd)
    else Raise ValueError.
Proof.
  revert cpu mem lat; induction pd as [|e pd IH]; intros cpu mem lat.
  - cbn. rewrite !app_nil_r. reflexivity.
  - cbn [metrics_loop forallb flat_map]. rewrite metrics_step_readable.
    destruct (readable e); cbn [bind andb]; [|reflexivity].
    rewrite IH. rewrite <- !app_assoc. reflexivity.
Qed.

Lemma metric_series_readable pd :
  metric_series pd
  = if forallb readable pd
    then Ok (flat_map (contribution match_cpu) pd,
             flat_map (contribution match_mem) pd,
             flat_map (contribution match_latency) pd)
    else Raise ValueError.
Proof. unfold metric_series. apply metrics_loop_readable. Qed.

(** C10: each series is the concatenation, in the order of the parsed
    entries, of what the entries contribute, and the extraction raises
    [ValueError] instead when [int] refuses a reading (a run of more than
    4300 digits).  An entry contributes at most one value to a series: a
    message in which the pattern occurs contributes the number of the
    leftmost occurrence, which is the one [re.search] finds, and nothing
    else, even when the pattern occurs again further on; a message in
    which the pattern occurs nowhere contributes nothing. *)
Theorem one_value_per_entry_and_series (parsed : list entry) :
  (forallb readable parsed = true ->
   metric_series parsed
   = Ok (flat_map (contribution match_cpu) parsed,
         flat_map (contribution match_mem) parsed,
         flat_map (contribution match_latency) parsed)) /\
  (forallb readable parsed = false ->
   metric_series parsed = Raise ValueError) /\
  forall e m,
    (length (contribution m e) <= 1)%nat /\
    (forall ds, first_occurrence m (e_message e) ds <->
                re_search m (e_message e) = Some ds) /\
    (forall ds, first_occurrence m (e_message e) ds ->
                contribution m e = [int_of_digits ds]) /\
    (forall v, In v (contribution m e) ->
               exists ds, first_occurrence m (e_message e) ds /\
                          v = int_of_digits ds) /\
    ((forall pre post, e_message e = pre ++ post -> m post = None) ->
     contribution m e = []).
Proof.
  split; [|split].
  - intros H. rewrite metric_series_readable, H. reflexivity.
  - intros H. rewrite metric_series_readable, H. reflexivity.
  - intros e m. split; [|split; [|split; [|split]]].
    + unfold contribution. destruct (re_search m (e_message e)); cbn; lia.
    + intros ds. split; [apply re_search_complete | apply re_search_first].
    + intros ds H. unfold contribution.
      rewrite (re_search_complete _ _ _ H). reflexivity.
    + unfold contribution.
      destruct (re_search m (e_message e)) as [ds|] eqn:E;
        intros v Hv; [|destruct Hv].
      destruct Hv as [<- | []]. exists ds.
      split; [apply re_search_first; exact E | reflexivity].
    + intros H. unfold contribution. rewrite (re_search_none _ _ H).
      reflexivity.
Qed.

Lemma one_value_per_entry_and_series_witness :
  metric_series [two_readings_entry] = Ok ([12], [450], []) /\
  contribution match_cpu two_readings_entry = [12].
Proof.
  destruct (one_value_per_entry_and_series [two_readings_entry])
    as [Hseries [_ Hentry]].
  split.
  - rewrite Hseries; [|vm_compute; reflexivity]. vm_compute. reflexivity.
  - destruct (Hentry two_readings_entry match_cpu) as [_ [Hfind [Hfirst _]]].
    rewrite (Hfirst (lit "12")); [vm_compute; reflexivity|].
    apply Hfind. vm_compute. reflexivity.
Defined.

(** A message with two CPU readings gives the first one only. *)
Example two_cpu_readings :
  metric_series
    [mk_entry (lit "t") (lit "INFO") (lit "System")
              (lit "CPU: 12% then CPU: 99%") []]
  = Ok ([12], [], []).
Proof. vm_compute. reflexivity. Qed.

(** A reading of 4300 digits is converted, one of 4301 digits is not. *)
Example longest_reading :
  metric_series [long_reading_entry 4300]
  = Ok ([], [int_of_digits (repeat "1"%char 4300)], []) /\
  metric_series [long_reading_entry 4301] = Raise ValueError.
Proof. split; vm_compute; reflexivity. Qed.

(** ** The normalizer *)

Lemma drop_while_nil p s : drop_while p s = [] -> forallb p s = true.
Proof.
  induction s as [|c s IH]; simpl; [reflexivity|].
  destruct (p c); [exact IH | discriminate].
Qed.

Lemma drop_while_all p s : forallb p s = true -> drop_while p s = [].
Proof.
  induction s as [|c s IH]; simpl; [reflexivity|].
  destruct (p c); [exact IH | discriminate].
Qed.

Lemma is_blank_spaces s : is_blank s = true <-> forallb is_space s = true.
Proof.
  unfold is_blank, strip. split.
  - intros H. apply drop_while_nil.
    destruct (drop_while is_space s) as [|c u] eqn:E; [reflexivity|].
    exfalso.
    assert (Hc : is_space c = false).
    { clear H. revert E. induction s as [|x s IH]; simpl; [discriminate|].
      destruct (is_space x) eqn:Ex; [exact IH|].
      intros H. injection H as -> _. exact Ex. }
    destruct (rev (drop_while is_space (rev (c :: u)))) eqn:R;
      [|discriminate].
    apply (f_equal (@rev ascii)) in R. rewrite rev_involutive in R.
    simpl in R. apply drop_while_nil in R.
    rewrite forallb_app in R. apply andb_true_iff in R as [_ R].
    simpl in R. rewrite Hc in R. discriminate.
  - intros H. rewrite (drop_while_all _ _ H). reflexivity.
Qed.

Lemma spaces_have_no_comma s :
  forallb is_space s = true -> contains (lit ",") s = false.
Proof.
  induction s as [|c s IH]; [reflexivity|].
  cbn [forallb contains]. intros H. apply andb_true_iff in H as [Hc Hs].
  rewrite (IH Hs), orb_false_r.
  change (starts_with (lit ",") (c :: s))
    with (Ascii.eqb ","%char c && true).
  rewrite andb_true_r.
  destruct (Ascii.eqb_spec ","%char c) as [<-|]; [discriminate | reflexivity].
Qed.

Lemma lines_of_blank s : is_blank s = true -> lines_of s = [].
Proof.
  unfold lines_of, is_blank. intros H.
  destruct (strip s); [reflexivity | discriminate].
Qed.

Section NormalizerFacts.

Variable pyfloat : Type.
Variable float_truthy : pyfloat -> bool.
Variable json_loads : str -> result (json pyfloat).
Variable json_dumps : json pyfloat -> str.
Variable py_str : json pyfloat -> str.
Variable csv_dictreader : str -> result (list csv_row).

(** Text that is not JSON and has no comma goes through unchanged. *)
Lemma normalize_passthrough raw e :
  json_loads raw = Raise e -> contains (lit ",") raw = false ->
  normalize_input float_truthy json_loads json_dumps py_str csv_dictreader raw
  = raw.
Proof.
  intros HJ HC. unfold normalize_input, json_attempt, csv_attempt.
  rewrite HJ, HC. reflexivity.
Qed.

Lemma run_passthrough raw e :
  json_loads raw = Raise e -> contains (lit ",") raw = false ->
  run float_truthy json_loads json_dumps py_str csv_dictreader raw
  = analyze_text raw.
Proof.
  intros HJ HC. unfold run, init, analyze_text.
  rewrite (normalize_passthrough raw e HJ HC). reflexivity.
Qed.

End NormalizerFacts.

(** C6: when [json.loads] rejects blank text, as it does for want of a JSON
    value, an empty or all-white-space input gives the report with no
    entries, no levels, no components, zero metrics and empty series, no
    anomalies, no correlations and health score 100; nothing is raised. *)
Theorem blank_input_report
  (pyfloat : Type) (float_truthy : pyfloat -> bool)
  (json_loads : str -> result (json pyfloat))
  (json_dumps py_str : json pyfloat -> str)
  (csv_dictreader : str -> result (list csv_row)) (raw : str) :
  (forall s, is_blank s = true -> exists e, json_loads s = Raise e) ->
  is_blank raw = true ->
  run float_truthy json_loads json_dumps py_str csv_dictreader raw
  = Ok empty_report /\
  health_score empty_report = 100 /\
  parsed_entries empty_report = 0 /\
  anomalies empty_report = [] /\ correlations empty_report = [] /\
  clusters_of_text raw = [].
Proof.
  intros HJ HB. destruct (HJ raw HB) as [e He].
  rewrite (run_passthrough _ _ _ _ _ _ raw e He).
  - unfold analyze_text, clusters_of_text, analyze, analyzer_of,
      parse_lines_into.
    cbn [parsed_data lines raw_logs]. rewrite (lines_of_blank raw HB).
    repeat split; reflexivity.
  - apply spaces_have_no_comma, is_blank_spaces, HB.
Qed.

Lemma blank_input_report_witness :
  run (fun _ : unit => true) (fun _ => Raise JSONDecodeError)
      (fun _ => []) (fun _ => []) (fun _ => Ok []) blank_example
  = Ok empty_report /\
  health_score empty_report = 100 /\
  parsed_entries empty_report = 0 /\
  anomalies empty_report = [] /\ correlations empty_report = [] /\
  clusters_of_text blank_example = [].
Proof.
  apply (blank_input_report unit (fun _ => true)
           (fun _ => Raise JSONDecodeError) (fun _ => []) (fun _ => [])
           (fun _ => Ok []) blank_example).
  - intros s _. exists JSONDecodeError. reflexivity.
  - vm_compute. reflexivity.
Defined.

(** C2 (the code departs from it): the three synthesis paths do not share
    one aliasing rule.  On the same fields, a top-level object reads
    [severity] and [service], an object inside an array reads neither, and a
    CSV row reads [severity] but not [service]; [date] is read by none of
    them, only by the copy of the rule in [backend.py]. *)
Theorem aliases_differ_between_paths
  (pyfloat : Type) (float_truthy : pyfloat -> bool)
  (json_dumps py_str : json pyfloat -> str) :
  let obj := [(lit "severity", JStr (lit "ERROR"));
              (lit "service", JStr (lit "db"));
              (lit "message", JStr (lit "x"))] in
  let row := mk_row [(lit "severity", Some (lit "ERROR"));
                     (lit "service", Some (lit "db"));
                     (lit "message", Some (lit "x"))] [] in
  let dated := [(lit "date", JStr (lit "d"));
                (lit "message", JStr (lit "x"))] in
  line_of_object float_truthy json_dumps py_str obj = lit "[] [ERROR] [db] x" /\
  line_of_element float_truthy json_dumps py_str obj = lit "[] [INFO] [] x" /\
  line_of_row row = Ok (lit "[] [ERROR] [] x") /\
  line_of_object float_truthy json_dumps py_str dated = lit "[] [INFO] [] x" /\
  backend_line_of_object float_truthy json_dumps py_str dated
  = lit "[d] [INFO] [] x".
Proof. cbv zeta. repeat split; vm_compute; reflexivity. Qed.

(** The same through [_normalize_input], for a text that [json.loads] reads
    as an array of the one object. *)
Lemma array_input_loses_aliases
  (pyfloat : Type) (float_truthy : pyfloat -> bool)
  (json_loads : str -> result (json pyfloat))
  (json_dumps py_str : json pyfloat -> str)
  (csv_dictreader : str -> result (list csv_row)) (input : str) :
  json_loads input
  = Ok (JArr [JObj [(lit "severity", JStr (lit "ERROR"));
                    (lit "service", JStr (lit "db"));
                    (lit "message", JStr (lit "x"))]]) ->
  normalize_input float_truthy json_loads json_dumps py_str csv_dictreader
    input
  = lit "[] [INFO] [] x".
Proof.
  intros H. unfold normalize_input, json_attempt. rewrite H.
  vm_compute. reflexivity.
Qed.

(** ** Exceptions of a run *)

Lemma statistics_mean_raises l e :
  statistics_mean l = Raise e -> l = [] \/ e = OverflowError.
Proof.
  intros H. destruct l as [|x l]; [left; reflexivity | right]. revert H.
  unfold statistics_mean, true_divide.
  destruct (_ =? 0); [discriminate|].
  destruct (_ <=? _); cbn; [congruence | discriminate].
Qed.

Lemma avg_or_zero_raises l e : avg_or_zero l = Raise e -> e = OverflowError.
Proof.
  destruct l as [|x l]; [discriminate|]. unfold avg_or_zero.
  destruct (statistics_mean (x :: l)) as [m|e'] eqn:E; cbn; [discriminate|].
  intros H. injection H as <-.
  destruct (statistics_mean_raises _ _ E) as [N | N]; [discriminate | exact N].
Qed.

Lemma max_or_zero_total l : exists v, max_or_zero l = Ok v.
Proof. destruct l; simpl; eauto. Qed.

(** The normalizer returns on every input, whatever its runtime does; a
    run can only raise from [int] on a reading of more than 4300 digits
    or from the conversion of a mean to a float. *)
Lemma analyze_raises_value_or_overflow (a : analyzer) (e : exn) :
  analyze a = Raise e -> e = ValueError \/ e = OverflowError.
Proof.
  unfold analyze, extract_metrics. rewrite metric_series_readable.
  destruct (forallb readable _); cbn [bind].
  2:{ intros H. injection H as <-. left. reflexivity. }
  set (cpu := flat_map (contribution match_cpu) _).
  set (mem := flat_map (contribution match_mem) _).
  set (lat := flat_map (contribution match_latency) _).
  destruct (avg_or_zero cpu) as [a1|e1] eqn:E1; cbn [bind].
  2:{ intros H. injection H as <-. right. eapply avg_or_zero_raises, E1. }
  destruct (max_or_zero_total cpu) as [v1 ->]; cbn [bind].
  destruct (avg_or_zero mem) as [a2|e2] eqn:E2; cbn [bind].
  2:{ intros H. injection H as <-. right. eapply avg_or_zero_raises, E2. }
  destruct (max_or_zero_total lat) as [v2 ->]; cbn [bind].
  discriminate.
Qed.

(** C4 (the code departs from it): two well-shaped lines, the first with a
    CPU reading of 401 digits and the second with the reading 1, make
    [statistics.mean] convert a non-integer mean beyond the range of a float;
    the [OverflowError] leaves [analyze]. *)
Theorem huge_reading_raises :
  analyze_text huge_cpu_lines = Raise OverflowError.
Proof. vm_compute. reflexivity. Qed.

(** The text is not JSON and has no comma, so the normalizer hands it on
    unchanged and the whole run raises. *)
Lemma huge_reading_run_raises
  (pyfloat : Type) (float_truthy : pyfloat -> bool)
  (json_loads : str -> result (json pyfloat))
  (json_dumps py_str : json pyfloat -> str)
  (csv_dictreader : str -> result (list csv_row)) (e : exn) :
  json_loads huge_cpu_lines = Raise e ->
  run float_truthy json_loads json_dumps py_str csv_dictreader huge_cpu_lines
  = Raise OverflowError.
Proof.
  intros H. rewrite (run_passthrough _ _ _ _ _ _ _ e H).
  - vm_compute. reflexivity.
  - vm_compute. reflexivity.
Qed.

(** ** Masking *)

Lemma last_char_app p a b : last_char p (a ++ b) = last_char (last_char p a) b.
Proof. unfold last_char. apply fold_left_app. Qed.

Lemma last_char_cons p c t : last_char p (c :: t) = last_char (Some c) t.
Proof. reflexivity. Qed.

Lemma take_drop_while p s : take_while p s ++ drop_while p s = s.
Proof.
  induction s as [|c s IH]; simpl; [reflexivity|].
  destruct (p c); simpl; [rewrite IH|]; reflexivity.
Qed.

Lemma take_while_all p s : forallb p (take_while p s) = true.
Proof.
  induction s as [|c s IH]; simpl; [reflexivity|].
  destruct (p c) eqn:E; simpl; [rewrite E; exact IH | reflexivity].
Qed.

Lemma drop_while_hd p s c :
  hd_error (drop_while p s) = Some c -> p c = false.
Proof.
  induction s as [|x s IH]; simpl; [discriminate|].
  destruct (p x) eqn:E; [exact IH|]. simpl. intros H. congruence.
Qed.

Lemma scan_skip m R k p s :
  sub_scan m R k p s
  = sub_scan m R 0 (last_char p (firstn k s)) (skipn k s).
Proof.
  revert p s; induction k as [|k IH]; intros p s; [reflexivity|].
  destruct s as [|c t]; [reflexivity|].
  cbn [sub_scan firstn skipn]. rewrite IH. reflexivity.
Qed.

Lemma scan_copy m R p c t :
  (forall k, m p (c :: t) <> Some (S k)) ->
  sub_scan m R 0 p (c :: t) = c :: sub_scan m R 0 (Some c) t.
Proof.
  intros H. cbn [sub_scan]. destruct (m p (c :: t)) as [[|k]|]; auto.
  exfalso. apply (H k). reflexivity.
Qed.

Lemma scan_match m R p c t k :
  m p (c :: t) = Some (S k) ->
  sub_scan m R 0 p (c :: t)
  = R ++ sub_scan m R 0 (last_char p (firstn (S k) (c :: t)))
                  (skipn (S k) (c :: t)).
Proof.
  intros H. cbn [sub_scan]. rewrite H, scan_skip. reflexivity.
Qed.

Lemma scan_hd m R p c t :
  hd_error (sub_scan m R 0 p (c :: t)) = Some c \/
  exists k, m p (c :: t) = Some (S k) /\
            hd_error (sub_scan m R 0 p (c :: t))
            = hd_error (R ++ sub_scan m R k (Some c) t).
Proof.
  cbn [sub_scan]. destruct (m p (c :: t)) as [[|k]|]; auto.
  right. exists k. auto.
Qed.

(** A run of characters of a class that no replacement starts with is a
    run that the scan copied. *)
Lemma copied_prefix m R (cl : ascii -> bool) r0 R' :
  R = r0 :: R' -> cl r0 = false ->
  forall n s p,
    length (firstn n (sub_scan m R 0 p s)) = n ->
    forallb cl (firstn n (sub_scan m R 0 p s)) = true ->
    firstn n (sub_scan m R 0 p s) = firstn n s /\
    skipn n (sub_scan m R 0 p s)
    = sub_scan m R 0 (last_char p (firstn n s)) (skipn n s).
Proof.
  intros -> Hr0. induction n as [|n IH]; intros s p Hlen Hcl.
  - split; reflexivity.
  - destruct s as [|c t]; [discriminate|].
    revert Hlen Hcl. cbn [sub_scan].
    destruct (m p (c :: t)) as [[|k]|].
    + cbn [firstn skipn length forallb]. intros Hlen Hcl.
      apply andb_true_iff in Hcl as [_ Hcl]. injection Hlen as Hlen.
      destruct (IH t (Some c) Hlen Hcl) as [E1 E2].
      rewrite E1, E2. split; reflexivity.
    + cbn [app firstn forallb]. rewrite Hr0. discriminate.
    + cbn [firstn skipn length forallb]. intros Hlen Hcl.
      apply andb_true_iff in Hcl as [_ Hcl]. injection Hlen as Hlen.
      destruct (IH t (Some c) Hlen Hcl) as [E1 E2].
      rewrite E1, E2. split; reflexivity.
Qed.

Lemma free_sub_id m R s p : free m p s -> sub_scan m R 0 p s = s.
Proof.
  revert p; induction s as [|c t IH]; intros p; [reflexivity|].
  intros [H1 H2]. cbn [sub_scan]. rewrite H1, (IH _ H2). reflexivity.
Qed.

Lemma free_app m p a b :
  free m p (a ++ b) -> free m (last_char p a) b.
Proof.
  revert p; induction a as [|c a IH]; intros p; [auto|].
  cbn [app free]. intros [_ H]. apply IH. exact H.
Qed.

Lemma free_skipn m p n s :
  free m p s -> free m (last_char p (firstn n s)) (skipn n s).
Proof.
  intros H. rewrite <- (firstn_skipn n s) in H. apply free_app in H.
  exact H.
Qed.

(** The general argument: the text that [re.sub] for the pattern [Y] gives
    has no match of the pattern [X], when the replacement has none and a
    match of [X] in the result can be traced back (hypothesis [reflect]) to
    a match in the text that [Y] scanned.  [after] is what holds between the
    last character of a match of [Y] and the rest of the text; [Q] is what
    is known of the scanned text. *)
Section FreeAfterSub.

Variables (X Y : matcher) (R : str) (lastR : ascii).
Variable after : option ascii -> str -> Prop.
Variable Q : option ascii -> str -> Prop.

Hypothesis Y_positive : forall p s, Y p s <> Some O.
Hypothesis Y_after : forall p c t k,
  Y p (c :: t) = Some (S k) ->
  after (last_char p (firstn (S k) (c :: t))) (skipn (S k) (c :: t)).
Hypothesis R_free : forall p' z, free X (Some lastR) z -> free X p' (R ++ z).
Hypothesis Q_copy : forall p c t,
  Q p (c :: t) -> Y p (c :: t) = None ->
  X p (c :: t) = None /\ Q (Some c) t.
Hypothesis Q_skip : forall p s k,
  Q p s -> Q (last_char p (firstn k s)) (skipn k s).
Hypothesis reflect : forall p p' c t,
  p' = p \/ (p' = Some lastR /\ after p (c :: t)) ->
  Y p (c :: t) = None -> X p (c :: t) = None ->
  X p' (c :: sub_scan Y R 0 (Some c) t) = None.

Lemma free_after_sub_bounded (n : nat) :
  forall s p p',
    (length s <= n)%nat ->
    p' = p \/ (p' = Some lastR /\ after p s) ->
    Q p s -> free X p' (sub_scan Y R 0 p s).
Proof.
  induction n as [|n IH]; intros s p p' Hlen Hctx HQ.
  - destruct s; [exact I | simpl in Hlen; lia].
  - destruct s as [|c t]; [exact I|].
    destruct (Y p (c :: t)) as [[|k]|] eqn:E.
    + exfalso. exact (Y_positive _ _ E).
    + rewrite (scan_match _ _ _ _ _ _ E). apply R_free.
      apply IH.
      * rewrite length_skipn. simpl in Hlen |- *. lia.
      * right. split; [reflexivity|]. apply Y_after. exact E.
      * apply Q_skip. exact HQ.
    + rewrite scan_copy by (intros k; congruence).
      destruct (Q_copy _ _ _ HQ E) as [HX HQ'].
      split.
      * apply (reflect p); assumption.
      * apply IH; [simpl in Hlen; lia | left; reflexivity | exact HQ'].
Qed.

Lemma free_after_sub s p p' :
  p' = p \/ (p' = Some lastR /\ after p s) ->
  Q p s -> free X p' (sub_scan Y R 0 p s).
Proof. apply (free_after_sub_bounded (length s)). lia. Qed.

End FreeAfterSub.

(** *** Character classes and the matchers *)

Lemma digit_is_word c : is_digit c = true -> is_word c = true.
Proof.
  intros H. unfold is_word. rewrite H.
  destruct (is_ascii_alpha c); reflexivity.
Qed.

Lemma nonword_not_digit c : is_word c = false -> is_digit c = false.
Proof.
  intros H. destruct (is_digit c) eqn:E; [|reflexivity].
  rewrite (digit_is_word c E) in H. discriminate.
Qed.

Lemma last_char_class (cl : ascii -> bool) p ds :
  ds <> [] -> forallb cl ds = true ->
  exists d, last_char p ds = Some d /\ cl d = true.
Proof.
  revert p; induction ds as [|c ds IH]; intros p Hne Hall; [congruence|].
  cbn [forallb] in Hall. apply andb_true_iff in Hall as [Hc Hall].
  rewrite last_char_cons. destruct ds as [|c' ds'].
  - exists c. auto.
  - apply IH; [discriminate | exact Hall].
Qed.

Lemma last_char_nonempty p p' s : s <> [] -> last_char p s = last_char p' s.
Proof. destruct s; [congruence | reflexivity]. Qed.

Lemma drop_while_app_stop p a b :
  forallb p a = true ->
  (forall c, hd_error b = Some c -> p c = false) ->
  drop_while p (a ++ b) = b /\ take_while p (a ++ b) = a.
Proof.
  intros Ha Hb. induction a as [|x a IH]; cbn [app].
  - destruct b as [|c b]; [split; reflexivity|].
    simpl. rewrite (Hb c eq_refl). split; reflexivity.
  - cbn [forallb] in Ha. apply andb_true_iff in Ha as [Hx Ha].
    simpl. rewrite Hx. destruct (IH Ha) as [E1 E2].
    rewrite E1, E2. split; reflexivity.
Qed.

Lemma firstn_skipn_app {A : Type} (a b : list A) :
  firstn (length a) (a ++ b) = a /\ skipn (length a) (a ++ b) = b.
Proof.
  split.
  - rewrite firstn_app, Nat.sub_diag, firstn_all. simpl.
    apply app_nil_r.
  - rewrite skipn_app, Nat.sub_diag, skipn_all. reflexivity.
Qed.

Lemma m_num_inv p s n :
  m_num p s = Some n ->
  exists ds r,
    s = ds ++ r /\ n = length ds /\ ds <> [] /\
    forallb is_digit ds = true /\
    wordb p = false /\ wordb (hd_error r) = false.
Proof.
  unfold m_num, digits1. destruct s as [|c t]; [discriminate|].
  destruct (is_digit c) eqn:Ec; [|discriminate].
  destruct (wordb p || wordb (hd_error (drop_while is_digit t))) eqn:Ew;
    [discriminate|].
  apply orb_false_iff in Ew as [Ep Er]. intros H. injection H as <-.
  exists (c :: take_while is_digit t), (drop_while is_digit t).
  repeat split; auto.
  - cbn [app]. rewrite take_drop_while. reflexivity.
  - unfold consumed. rewrite <- (take_drop_while is_digit t) at 1.
    cbn [length]. rewrite length_app. lia.
  - discriminate.
  - cbn [forallb]. rewrite Ec, take_while_all. reflexivity.
Qed.

Lemma m_num_intro p ds r :
  ds <> [] -> forallb is_digit ds = true ->
  wordb p = false -> wordb (hd_error r) = false ->
  m_num p (ds ++ r) = Some (length ds).
Proof.
  intros Hne Hall Hp Hr. destruct ds as [|c ds]; [congruence|].
  cbn [forallb] in Hall. apply andb_true_iff in Hall as [Hc Hall].
  unfold m_num, digits1. cbn [app]. rewrite Hc.
  destruct (drop_while_app_stop is_digit ds r Hall) as [E _].
  { intros x Hx. rewrite Hx in Hr. apply nonword_not_digit. exact Hr. }
  rewrite E, Hp, Hr. cbn [orb]. unfold consumed.
  cbn [length]. rewrite length_app. f_equal. lia.
Qed.

Lemma m_num_positive p s : m_num p s <> Some O.
Proof.
  intros H. apply m_num_inv in H as [ds [r [_ [Hn [Hne _]]]]].
  destruct ds; [congruence | discriminate].
Qed.

Lemma m_uuid_inv p s n :
  m_uuid p s = Some n ->
  n = 36%nat /\ length (firstn 36 s) = 36%nat /\
  forallb is_hexdash (firstn 36 s) = true /\
  boundary p (hd_error s) = true /\
  boundary (last_char None (firstn 36 s)) (hd_error (skipn 36 s)) = true.
Proof.
  unfold m_uuid.
  destruct (Nat.eqb_spec (length (firstn 36 s)) 36) as [E1|]; [|discriminate].
  destruct (forallb is_hexdash (firstn 36 s)); [|discriminate].
  destruct (boundary p (hd_error s)); [|discriminate].
  destruct (boundary _ (hd_error (skipn 36 s))); [|discriminate].
  cbn. intros H. injection H as <-. auto.
Qed.

Lemma m_uuid_intro p s :
  length (firstn 36 s) = 36%nat ->
  forallb is_hexdash (firstn 36 s) = true ->
  boundary p (hd_error s) = true ->
  boundary (last_char None (firstn 36 s)) (hd_error (skipn 36 s)) = true ->
  m_uuid p s = Some 36%nat.
Proof.
  intros H1 H2 H3 H4. unfold m_uuid. rewrite H1, H2, H3, H4. reflexivity.
Qed.

Lemma m_uuid_positive p s : m_uuid p s <> Some O.
Proof. intros H. apply m_uuid_inv in H as [H _]. discriminate. Qed.

Lemma closing_quote_last p t n :
  closing_quote t = Some n ->
  last_char p (firstn (S n) t) = Some chr_quote.
Proof.
  revert p n; induction t as [|c t IH]; intros p n; [discriminate|].
  cbn [closing_quote].
  destruct (Ascii.eqb_spec c chr_quote) as [->|Hc].
  - intros H. injection H as <-. reflexivity.
  - destruct (Ascii.eqb c chr_nl); [discriminate|].
    destruct (closing_quote t) as [k|] eqn:E; [|discriminate].
    cbn [option_map]. intros H. injection H as <-.
    change (firstn (S (S k)) (c :: t)) with (c :: firstn (S k) t).
    rewrite last_char_cons. apply IH. reflexivity.
Qed.

Lemma m_str_inv p c t k :
  m_str p (c :: t) = Some (S k) ->
  c = chr_quote /\
  last_char p (firstn (S k) (c :: t)) = Some chr_quote.
Proof.
  unfold m_str. destruct (Ascii.eqb_spec c chr_quote) as [->|]; [|discriminate].
  destruct (closing_quote t) as [n|] eqn:E; [|discriminate].
  cbn [option_map]. intros H. injection H as <-. split; [reflexivity|].
  change (firstn (S (S n)) (chr_quote :: t))
    with (chr_quote :: firstn (S n) t).
  rewrite last_char_cons. apply (closing_quote_last _ _ _ E).
Qed.

Lemma m_str_positive p s : m_str p s <> Some O.
Proof.
  unfold m_str. destruct s as [|c t]; [discriminate|].
  destruct (Ascii.eqb c chr_quote); [|discriminate].
  destruct (closing_quote t); discriminate.
Qed.

Lemma m_num_nondigit p c z : is_digit c = false -> m_num p (c :: z) = None.
Proof. intros H. unfold m_num, digits1. rewrite H. reflexivity. Qed.

Lemma m_uuid_nonhex p c z : is_hexdash c = false -> m_uuid p (c :: z) = None.
Proof.
  intros H. destruct (m_uuid p (c :: z)) eqn:E; [|reflexivity].
  apply m_uuid_inv in E as [_ [_ [E _]]].
  change (firstn 36 (c :: z)) with (c :: firstn 35 z) in E.
  cbn [forallb] in E. rewrite H in E. discriminate.
Qed.

Lemma m_uuid_nonhex2 p c c' z :
  is_hexdash c' = false -> m_uuid p (c :: c' :: z) = None.
Proof.
  intros H. destruct (m_uuid p (c :: c' :: z)) eqn:E; [|reflexivity].
  apply m_uuid_inv in E as [_ [_ [E _]]].
  change (firstn 36 (c :: c' :: z)) with (c :: c' :: firstn 34 z) in E.
  cbn [forallb] in E. rewrite H, andb_false_r in E. discriminate.
Qed.

(** *** Tracing a match in the result back to the scanned text *)

Section ReflectUuid.

Variables (Y : matcher) (R : str) (r0 : ascii) (R' : str) (lastR : ascii).
Variable after : option ascii -> str -> Prop.

Hypothesis R_shape : R = r0 :: R'.
Hypothesis r0_not_hex : is_hexdash r0 = false.
Hypothesis r0_not_word : is_word r0 = false.
Hypothesis start_boundary : forall p p' c t,
  p' = p \/ (p' = Some lastR /\ after p (c :: t)) ->
  boundary p' (Some c) = true -> boundary p (Some c) = true.
Hypothesis end_boundary : forall q x rest k,
  wordb q = true -> Y q (x :: rest) = Some (S k) ->
  boundary q (Some x) = true.

Lemma reflect_uuid p p' c t :
  p' = p \/ (p' = Some lastR /\ after p (c :: t)) ->
  Y p (c :: t) = None -> m_uuid p (c :: t) = None ->
  m_uuid p' (c :: sub_scan Y R 0 (Some c) t) = None.
Proof.
  intros Hctx HY HX.
  destruct (m_uuid p' (c :: sub_scan Y R 0 (Some c) t)) as [n|] eqn:E;
    [exfalso | reflexivity].
  rewrite <- (scan_copy Y R p c t) in E by (intros k; congruence).
  apply m_uuid_inv in E as [_ [Hlen [Hall [Hb1 Hb2]]]].
  destruct (copied_prefix Y R is_hexdash r0 R' R_shape r0_not_hex
              36 (c :: t) p Hlen Hall) as [E1 E2].
  rewrite E1 in Hlen, Hall, Hb2. rewrite E2 in Hb2.
  assert (Hne : firstn 36 (c :: t) <> []) by discriminate.
  rewrite (scan_copy Y R p c t) in Hb1 by (intros k; congruence).
  cbn [hd_error] in Hb1.
  rewrite (m_uuid_intro p (c :: t)) in HX; [discriminate | | | |]; auto.
  - cbn [hd_error]. apply (start_boundary p p' c t); assumption.
  - destruct (skipn 36 (c :: t)) as [|x rest] eqn:Er; [exact Hb2|].
    destruct (scan_hd Y R (last_char p (firstn 36 (c :: t))) x rest)
      as [Eh | [k [Hm Eh]]]; rewrite Eh in Hb2.
    + exact Hb2.
    + rewrite R_shape in Hb2. cbn [app hd_error] in Hb2.
      unfold boundary in Hb2. cbn [wordb] in Hb2.
      rewrite r0_not_word, xorb_false_r in Hb2.
      rewrite (last_char_nonempty None p _ Hne) in *.
      apply (end_boundary _ _ _ _ Hb2 Hm).
Qed.

End ReflectUuid.

Section ReflectNum.

Variables (Y : matcher) (R : str) (r0 : ascii) (R' : str) (lastR : ascii).
Variable after : option ascii -> str -> Prop.

Hypothesis R_shape : R = r0 :: R'.
Hypothesis r0_not_digit : is_digit r0 = false.
Hypothesis start_boundary : forall p p' c t,
  p' = p \/ (p' = Some lastR /\ after p (c :: t)) ->
  wordb p' = false -> is_digit c = true -> wordb p = false.
Hypothesis end_boundary : forall q x rest k,
  wordb q = true -> Y q (x :: rest) = Some (S k) -> is_word x = false.

Lemma reflect_num p p' c t :
  p' = p \/ (p' = Some lastR /\ after p (c :: t)) ->
  Y p (c :: t) = None -> m_num p (c :: t) = None ->
  m_num p' (c :: sub_scan Y R 0 (Some c) t) = None.
Proof.
  intros Hctx HY HX.
  destruct (m_num p' (c :: sub_scan Y R 0 (Some c) t)) as [n|] eqn:E;
    [exfalso | reflexivity].
  apply m_num_inv in E as [ds [r [Es [Hn [Hne [Hall [Hp' Hr]]]]]]].
  assert (Hc : is_digit c = true).
  { destruct ds as [|d ds]; [congruence|]. injection Es as <- _.
    cbn [forallb] in Hall. apply andb_true_iff in Hall. tauto. }
  rewrite <- (scan_copy Y R p c t) in Es by (intros k; congruence).
  destruct (firstn_skipn_app ds r) as [F1 F2]. rewrite <- Es in F1, F2.
  destruct (copied_prefix Y R is_digit r0 R' R_shape r0_not_digit
              (length ds) (c :: t) p) as [E1 E2].
  { rewrite F1. reflexivity. }
  { rewrite F1. exact Hall. }
  rewrite F1 in E1. rewrite F2 in E2.
  assert (Hs : c :: t = ds ++ skipn (length ds) (c :: t)).
  { rewrite E1 at 1. symmetry. apply firstn_skipn. }
  rewrite Hs in HX. rewrite m_num_intro in HX; [discriminate | | | |]; auto.
  - apply (start_boundary p p' c t); assumption.
  - destruct (skipn (length ds) (c :: t)) as [|x rest] eqn:Er; [reflexivity|].
    rewrite <- E1 in E2.
    destruct (scan_hd Y R (last_char p ds) x rest) as [Eh | [k [Hm Eh]]].
    + rewrite <- E2 in Eh. rewrite Eh in Hr. exact Hr.
    + cbn [hd_error wordb].
      destruct (last_char_class is_digit p ds Hne Hall) as [d [Ed Hd]].
      apply (end_boundary (last_char p ds) x rest k); [|exact Hm].
      rewrite Ed. cbn [wordb]. apply digit_is_word. exact Hd.
Qed.

End ReflectNum.

(** *** What follows a match *)

Lemma m_num_after p c t k :
  m_num p (c :: t) = Some (S k) ->
  wordb (last_char p (firstn (S k) (c :: t))) = true /\
  wordb (hd_error (skipn (S k) (c :: t))) = false.
Proof.
  intros H.
  apply m_num_inv in H as [ds [r [Es [Hn [Hne [Hall [Hp Hr]]]]]]].
  destruct (firstn_skipn_app ds r) as [F1 F2].
  rewrite <- Es, <- Hn in F1, F2. rewrite F1, F2.
  split; [|exact Hr].
  destruct (last_char_class is_digit p ds Hne Hall) as [d [-> Hd]].
  apply digit_is_word. exact Hd.
Qed.

Lemma m_uuid_after p c t k :
  m_uuid p (c :: t) = Some (S k) ->
  boundary (last_char p (firstn (S k) (c :: t)))
           (hd_error (skipn (S k) (c :: t))) = true.
Proof.
  intros H. apply m_uuid_inv in H as [Hk [_ [_ [_ H]]]].
  rewrite Hk. rewrite (last_char_nonempty p None); [exact H | discriminate].
Qed.

Lemma m_str_after p c t k :
  m_str p (c :: t) = Some (S k) ->
  last_char p (firstn (S k) (c :: t)) = Some chr_quote.
Proof. intros H. apply (m_str_inv _ _ _ _ H). Qed.

(** *** The five steps *)

Ltac no_match_in_replacement :=
  cbn [lit list_ascii_of_string app free];
  repeat split;
  try (apply m_num_nondigit; reflexivity);
  try (apply m_uuid_nonhex; reflexivity);
  try (apply m_uuid_nonhex2; reflexivity);
  try assumption.

Lemma num_free_after_num s : free m_num None (re_sub m_num (lit "{NUM}") s).
Proof.
  unfold re_sub.
  apply (free_after_sub m_num m_num (lit "{NUM}") "}"%char
           (fun q rest => wordb q = true /\ wordb (hd_error rest) = false)
           (fun _ _ => True)).
  - exact m_num_positive.
  - exact m_num_after.
  - intros p' z Hz. no_match_in_replacement.
  - intros p c t _ H. split; [exact H | exact I].
  - intros; exact I.
  - intros p p' c t.
    apply (reflect_num m_num (lit "{NUM}") "{"%char (lit "NUM}") "}"%char
             (fun q rest => wordb q = true /\ wordb (hd_error rest) = false)).
    + reflexivity.
    + reflexivity.
    + intros q q' x u [-> | [_ [_ Hx]]] Hq Hd; [exact Hq|].
      cbn [hd_error wordb] in Hx. rewrite (digit_is_word x Hd) in Hx.
      discriminate.
    + intros q x u k Hq Hm. apply m_num_inv in Hm. decompose record Hm.
      congruence.
  - left. reflexivity.
  - exact I.
Qed.

Lemma uuid_free_after_uuid s :
  free m_uuid None (re_sub m_uuid (lit "{UUID}") s).
Proof.
  unfold re_sub.
  apply (free_after_sub m_uuid m_uuid (lit "{UUID}") "}"%char
           (fun q rest => boundary q (hd_error rest) = true)
           (fun _ _ => True)).
  - exact m_uuid_positive.
  - exact m_uuid_after.
  - intros p' z Hz. no_match_in_replacement.
  - intros p c t _ H. split; [exact H | exact I].
  - intros; exact I.
  - intros p p' c t.
    apply (reflect_uuid m_uuid (lit "{UUID}") "{"%char (lit "UUID}") "}"%char
             (fun q rest => boundary q (hd_error rest) = true)).
    + reflexivity.
    + reflexivity.
    + reflexivity.
    + intros q q' x u [-> | [_ Hx]] Hq; [exact Hq | exact Hx].
    + intros q x u k _ Hm. apply m_uuid_inv in Hm. tauto.
  - left. reflexivity.
  - exact I.
Qed.

Lemma uuid_free_after_num s :
  free m_uuid None s -> free m_uuid None (re_sub m_num (lit "{NUM}") s).
Proof.
  intros Hs. unfold re_sub.
  apply (free_after_sub m_uuid m_num (lit "{NUM}") "}"%char
           (fun q rest => wordb q = true /\ wordb (hd_error rest) = false)
           (free m_uuid)).
  - exact m_num_positive.
  - exact m_num_after.
  - intros p' z Hz. no_match_in_replacement.
  - intros p c t H _. exact H.
  - intros p u k H. apply free_skipn. exact H.
  - intros p p' c t.
    apply (reflect_uuid m_num (lit "{NUM}") "{"%char (lit "NUM}") "}"%char
             (fun q rest => wordb q = true /\ wordb (hd_error rest) = false)).
    + reflexivity.
    + reflexivity.
    + reflexivity.
    + intros q q' x u [-> | [-> [_ Hx]]] Hq; [exact Hq|].
      cbn [hd_error wordb] in Hx. unfold boundary in Hq.
      cbn [wordb] in Hq. rewrite Hx in Hq. discriminate.
    + intros q x u k Hq Hm. apply m_num_inv in Hm. decompose record Hm.
      congruence.
  - left. reflexivity.
  - exact Hs.
Qed.

Lemma num_free_after_str s :
  free m_num None s -> free m_num None (re_sub m_str str_mask s).
Proof.
  intros Hs. unfold re_sub.
  apply (free_after_sub m_num m_str str_mask chr_quote
           (fun q rest => q = Some chr_quote) (free m_num)).
  - exact m_str_positive.
  - exact m_str_after.
  - intros p' z Hz. unfold str_mask. no_match_in_replacement.
  - intros p c t H _. exact H.
  - intros p u k H. apply free_skipn. exact H.
  - intros p p' c t.
    apply (reflect_num m_str str_mask chr_quote (lit "{STR}" ++ [chr_quote])
             chr_quote (fun q rest => q = Some chr_quote)).
    + reflexivity.
    + reflexivity.
    + intros q q' x u [-> | [-> ->]] Hq _; exact Hq.
    + intros q x u k _ Hm. apply m_str_inv in Hm as [-> _]. reflexivity.
  - left. reflexivity.
  - exact Hs.
Qed.

Lemma uuid_free_after_str s :
  free m_uuid None s -> free m_uuid None (re_sub m_str str_mask s).
Proof.
  intros Hs. unfold re_sub.
  apply (free_after_sub m_uuid m_str str_mask chr_quote
           (fun q rest => q = Some chr_quote) (free m_uuid)).
  - exact m_str_positive.
  - exact m_str_after.
  - intros p' z Hz. unfold str_mask. no_match_in_replacement.
  - intros p c t H _. exact H.
  - intros p u k H. apply free_skipn. exact H.
  - intros p p' c t.
    apply (reflect_uuid m_str str_mask chr_quote (lit "{STR}" ++ [chr_quote])
             chr_quote (fun q rest => q = Some chr_quote)).
    + reflexivity.
    + reflexivity.
    + reflexivity.
    + intros q q' x u [-> | [-> ->]] Hq; exact Hq.
    + intros q x u k Hq Hm. apply m_str_inv in Hm as [-> _].
      unfold boundary. rewrite Hq. reflexivity.
  - left. reflexivity.
  - exact Hs.
Qed.

(** *** Quoted strings *)

Lemma str_scan_prev R k p p' s :
  sub_scan m_str R k p s = sub_scan m_str R k p' s.
Proof.
  revert k p p'; induction s as [|c t IH]; intros k p p'; [reflexivity|].
  cbn [sub_scan]. destruct k as [|k]; [|apply IH].
  change (m_str p (c :: t)) with (m_str p' (c :: t)).
  destruct (m_str p' (c :: t)) as [[|n]|]; reflexivity.
Qed.

Lemma closing_none_scan R p t :
  closing_quote t = None ->
  closing_quote (sub_scan m_str R 0 p t) = None.
Proof.
  revert p; induction t as [|x t IH]; intros p H; [reflexivity|].
  assert (Eq : Ascii.eqb x chr_quote = false).
  { cbn [closing_quote] in H.
    destruct (Ascii.eqb x chr_quote); [discriminate | reflexivity]. }
  rewrite scan_copy.
  2:{ intros k. unfold m_str. rewrite Eq. discriminate. }
  cbn [closing_quote] in *. rewrite Eq in *.
  destruct (Ascii.eqb x chr_nl); [reflexivity|].
  destruct (closing_quote t) eqn:E; [discriminate|].
  rewrite (IH (Some x) eq_refl). reflexivity.
Qed.

Lemma str_mask_rematch p z :
  sub_scan m_str str_mask 0 p (str_mask ++ z)
  = str_mask ++ sub_scan m_str str_mask 0 p z.
Proof.
  assert (M : m_str p (str_mask ++ z) = Some 7%nat).
  { unfold m_str, str_mask. cbn. reflexivity. }
  unfold str_mask in *. cbn [lit list_ascii_of_string app] in *.
  rewrite (scan_match _ _ _ _ _ _ M).
  cbn [skipn app]. rewrite (str_scan_prev _ 0%nat _ p). reflexivity.
Qed.

Lemma str_sub_fixed_bounded (n : nat) :
  forall s p,
    (length s <= n)%nat ->
    sub_scan m_str str_mask 0 p (sub_scan m_str str_mask 0 p s)
    = sub_scan m_str str_mask 0 p s.
Proof.
  induction n as [|n IH]; intros s p Hlen.
  - destruct s; [reflexivity | simpl in Hlen; lia].
  - destruct s as [|c t]; [reflexivity|].
    destruct (m_str p (c :: t)) as [[|k]|] eqn:E.
    + exfalso. exact (m_str_positive _ _ E).
    + rewrite (scan_match _ _ _ _ _ _ E), str_mask_rematch. f_equal.
      rewrite (str_scan_prev _ _ p (last_char p (firstn (S k) (c :: t)))).
      apply IH. rewrite length_skipn. simpl in Hlen |- *. lia.
    + rewrite scan_copy by (intros k; congruence).
      rewrite scan_copy.
      * f_equal. apply IH. simpl in Hlen. lia.
      * intros k Hk. revert E Hk. unfold m_str.
        destruct (Ascii.eqb c chr_quote); [|discriminate].
        destruct (closing_quote t) eqn:Ec; [discriminate|].
        rewrite (closing_none_scan _ _ _ Ec). discriminate.
Qed.

Lemma str_sub_fixed s :
  re_sub m_str str_mask (re_sub m_str str_mask s) = re_sub m_str str_mask s.
Proof. apply (str_sub_fixed_bounded (length s)). lia. Qed.

(** *** Addresses *)

Lemma digits1_inv s r :
  digits1 s = Some r ->
  exists ds, s = ds ++ r /\ ds <> [] /\ forallb is_digit ds = true.
Proof.
  unfold digits1. destruct s as [|c t]; [discriminate|].
  destruct (is_digit c) eqn:E; [|discriminate].
  intros H. injection H as <-. exists (c :: take_while is_digit t).
  cbn [app forallb]. rewrite take_drop_while, E, take_while_all.
  repeat split. discriminate.
Qed.

Lemma dot1_inv s r : dot1 s = Some r -> s = "."%char :: r.
Proof.
  unfold dot1. destruct s as [|c t]; [discriminate|].
  destruct (Ascii.eqb_spec c "."%char) as [->|]; [|discriminate].
  intros H. injection H as <-. reflexivity.
Qed.

(** A match of the address pattern holds a run of digits between two dots,
    which is a match of the number pattern. *)
Lemma m_ip_has_num p s n :
  m_ip p s = Some n ->
  exists pre r2, s = pre ++ r2 /\ r2 <> [] /\
                 exists k, m_num (last_char p pre) r2 = Some k.
Proof.
  unfold m_ip. destruct (wordb p); [discriminate|].
  destruct (digits1 s) as [r1|] eqn:D1; [|discriminate].
  destruct (dot1 r1) as [r2|] eqn:P1; [|discriminate].
  destruct (digits1 r2) as [r3|] eqn:D2; [|discriminate].
  destruct (dot1 r3) as [r4|] eqn:P2; [|discriminate].
  intros _.
  apply digits1_inv in D1 as [ds1 [-> [Hne1 _]]].
  apply dot1_inv in P1 as ->.
  apply digits1_inv in D2 as [ds2 [-> [Hne2 Hall2]]].
  apply dot1_inv in P2 as ->.
  exists (ds1 ++ ["."%char]), (ds2 ++ "."%char :: r4).
  split; [rewrite <- app_assoc; reflexivity|].
  split; [destruct ds2; [congruence | discriminate]|].
  exists (length ds2). rewrite last_char_app. apply m_num_intro; auto.
Qed.

Lemma free_at m p pre c t :
  free m p (pre ++ c :: t) -> m (last_char p pre) (c :: t) = None.
Proof. intros H. apply free_app in H. exact (proj1 H). Qed.

Lemma num_free_ip_free s p : free m_num p s -> free m_ip p s.
Proof.
  revert p; induction s as [|c t IH]; intros p; [auto|].
  intros H. split; [|apply IH; exact (proj2 H)].
  destruct (m_ip p (c :: t)) as [n|] eqn:E; [exfalso | reflexivity].
  apply m_ip_has_num in E as [pre [r2 [Es [Hne [k Hk]]]]].
  destruct r2 as [|x r2]; [congruence|].
  rewrite Es in H. rewrite (free_at _ _ _ _ _ H) in Hk. discriminate.
Qed.

(** C9: masking a masked message changes nothing. *)
Theorem mask_idempotent (m : str) : mask (mask m) = mask m.
Proof.
  unfold mask. cbn [fold_left mask_patterns fst snd].
  set (a := re_sub m_ip (lit "{IP}") m).
  set (b := re_sub m_uuid (lit "{UUID}") a).
  set (c := re_sub m_num (lit "{NUM}") b).
  set (d := re_sub m_str str_mask c).
  assert (Hu : free m_uuid None d).
  { apply uuid_free_after_str, uuid_free_after_num, uuid_free_after_uuid. }
  assert (Hn : free m_num None d).
  { apply num_free_after_str, num_free_after_num. }
  unfold re_sub at 4.
  rewrite (free_sub_id m_ip _ d None (num_free_ip_free _ _ Hn)).
  unfold re_sub at 3. rewrite (free_sub_id m_uuid _ d None Hu).
  unfold re_sub at 2. rewrite (free_sub_id m_num _ d None Hn).
  apply str_sub_fixed.
Qed.


(** * Further properties of the code *)

(** ** The line parser *)

Lemma parse_line_raw l e : parse_line l = Some e -> e_raw e = l.
Proof.
  unfold parse_line. destruct (log_pattern_match (strip l)) as [[[[a b] c] d]|];
    [|discriminate].
  intros H. injection H as <-. reflexivity.
Qed.

(** X1: the parsed entries are the lines that match the pattern, in the
    order of the lines and each with its line kept verbatim as [raw]; the
    other lines are dropped, so there are never more entries than lines. *)
Theorem parsed_entries_are_matching_lines (ls : list str) :
  map e_raw (parse_lines ls) = filter parses ls /\
  (length (parse_lines ls) <= length ls)%nat.
Proof.
  induction ls as [|l ls [IH1 IH2]]; [split; reflexivity|].
  cbn [parse_lines filter]. unfold parses at 1.
  destruct (parse_line l) as [e|] eqn:E; cbn [map length].
  - rewrite IH1, (parse_line_raw l e E). split; [reflexivity | lia].
  - split; [exact IH1 | lia].
Qed.

Lemma take_while_no_newline s : no_newline (rest_of_line s).
Proof.
  unfold no_newline, rest_of_line. induction s as [|c s IH]; simpl; [tauto|].
  destruct (Ascii.eqb_spec c chr_nl) as [->|Hc]; simpl; [tauto|].
  intros [H | H]; [congruence | exact (IH H)].
Qed.

Lemma rest_of_line_hd s : hd_error (rest_of_line s) = None \/
                          hd_error (rest_of_line s) = hd_error s.
Proof.
  unfold rest_of_line. destruct s as [|c s]; [left; reflexivity|].
  simpl. destruct (Ascii.eqb c chr_nl); simpl; auto.
Qed.

Lemma spaces1_hd s r c :
  spaces1 s = Some r -> hd_error r = Some c -> is_space c = false.
Proof.
  unfold spaces1. destruct s as [|x s]; [discriminate|].
  destruct (is_space x); [|discriminate].
  intros H. injection H as <-. apply drop_while_hd.
Qed.

Lemma lazy_bracket_inv {A : Type} (k : str -> option A) s g a :
  lazy_bracket k s = Some (g, a) ->
  exists rest, s = g ++ "]"%char :: rest /\ k rest = Some a /\ no_newline g.
Proof.
  revert g; induction s as [|c t IH]; intros g; [discriminate|].
  cbn [lazy_bracket].
  destruct (if Ascii.eqb c "]"%char then k t else None) as [a'|] eqn:E.
  - intros H. injection H as <- <-.
    destruct (Ascii.eqb_spec c "]"%char) as [->|]; [|discriminate].
    exists t. repeat split; auto. intros [].
  - destruct (Ascii.eqb_spec c chr_nl) as [->|Hc]; [discriminate|].
    destruct (lazy_bracket k t) as [[g' a']|]; [|discriminate].
    intros H. injection H as <- <-.
    destruct (IH g' eq_refl) as [rest [-> [Hk Hg]]].
    exists rest. repeat split; auto.
    intros [H | H]; [congruence | exact (Hg H)].
Qed.

Lemma bracket_word_inv s w r :
  bracket_word s = Some (w, r) -> w <> [] /\ forallb is_word w = true.
Proof.
  unfold bracket_word. destruct s as [|c t]; [discriminate|].
  destruct (Ascii.eqb c "["%char); [|discriminate].
  destruct (take_while is_word t) as [|x xs] eqn:E; [discriminate|].
  destruct (drop_while is_word t) as [|d r']; [discriminate|].
  destruct (Ascii.eqb d "]"%char); [|discriminate].
  intros H. injection H as <- <-. split; [discriminate|].
  rewrite <- E. apply take_while_all.
Qed.

Lemma level_part_inv s lvl r :
  level_part s = Some (lvl, r) ->
  lvl <> [] /\ forallb is_word lvl = true /\
  forall c, hd_error r = Some c -> is_space c = false.
Proof.
  unfold level_part. destruct (spaces1 s) as [s1|]; [|discriminate].
  destruct (bracket_word s1) as [[w s2]|] eqn:B; [|discriminate].
  destruct (spaces1 s2) as [s3|] eqn:S3; [|discriminate].
  intros H. injection H as <- <-.
  destruct (bracket_word_inv _ _ _ B) as [H1 H2].
  repeat split; auto. intros c. apply (spaces1_hd _ _ _ S3).
Qed.

Lemma component_and_message_inv r comp msg :
  (forall c, hd_error r = Some c -> is_space c = false) ->
  component_and_message r = (comp, msg) ->
  no_newline msg /\ forall c, hd_error msg = Some c -> is_space c = false.
Proof.
  intros Hr. unfold component_and_message.
  assert (G : forall u, (forall c, hd_error u = Some c -> is_space c = false) ->
            no_newline (rest_of_line u) /\
            forall c, hd_error (rest_of_line u) = Some c -> is_space c = false).
  { intros u Hu. split; [apply take_while_no_newline|].
    intros c Hc. destruct (rest_of_line_hd u) as [E | E];
      rewrite E in Hc; [discriminate | exact (Hu c Hc)]. }
  destruct r as [|x t].
  - intros H. injection H as <- <-. split; [intros [] | discriminate].
  - destruct (Ascii.eqb x "["%char).
    + destruct (lazy_bracket spaces1 t) as [[g u]|] eqn:L.
      * intros H. injection H as <- <-.
        apply lazy_bracket_inv in L as [rest [_ [Hs _]]].
        apply G. intros c. apply (spaces1_hd _ _ _ Hs).
      * intros H. injection H as <- <-. apply G. exact Hr.
    + intros H. injection H as <- <-. apply G. exact Hr.
Qed.

(** X2: in a parsed entry the level is a non-empty run of word characters,
    the component is never empty ("System" stands in for a missing or empty
    one), and the timestamp and the message hold no newline; the message
    does not start with white space. *)
Theorem parsed_entry_shape (line : str) (e : entry) :
  parse_line line = Some e ->
  e_level e <> [] /\ forallb is_word (e_level e) = true /\
  e_component e <> [] /\
  no_newline (e_timestamp e) /\ no_newline (e_message e) /\
  forall c, hd_error (e_message e) = Some c -> is_space c = false.
Proof.
  unfold parse_line, log_pattern_match.
  destruct (strip line) as [|c t]; [discriminate|].
  destruct (Ascii.eqb c "["%char); [|discriminate].
  destruct (lazy_bracket level_part t) as [[ts [lvl r]]|] eqn:L;
    [|discriminate].
  destruct (component_and_message r) as [comp msg] eqn:C.
  intros H. injection H as <-. cbn.
  apply lazy_bracket_inv in L as [rest [_ [Hl Hts]]].
  apply level_part_inv in Hl as [H1 [H2 H3]].
  destruct (component_and_message_inv _ _ _ H3 C) as [H4 H5].
  repeat split; auto.
  destruct comp as [[|x xs]|]; discriminate.
Qed.

Lemma parsed_entry_shape_witness :
  lit "INFO" <> [] /\ forallb is_word (lit "INFO") = true /\
  lit "System" <> [] /\
  no_newline (lit "2025-01-01T00:00:00") /\ no_newline (lit "App started") /\
  forall c, hd_error (lit "App started") = Some c -> is_space c = false.
Proof.
  apply (parsed_entry_shape one_line
           (mk_entry (lit "2025-01-01T00:00:00") (lit "INFO") (lit "System")
                     (lit "App started") one_line)).
  vm_compute. reflexivity.
Defined.

Lemma drop_while_stop p c t : p c = false -> drop_while p (c :: t) = c :: t.
Proof. intros H. simpl. rewrite H. reflexivity. Qed.

Lemma strip_trimmed s : trimmed s -> strip s = s.
Proof.
  intros [H1 H2]. unfold strip.
  assert (E1 : drop_while is_space s = s).
  { destruct s as [|c t]; [reflexivity|].
    apply drop_while_stop, H1. reflexivity. }
  rewrite E1.
  assert (E2 : drop_while is_space (rev s) = rev s).
  { destruct (rev s) as [|c t]; [reflexivity|].
    apply drop_while_stop, H2. reflexivity. }
  rewrite E2. apply rev_involutive.
Qed.

Lemma lazy_bracket_app {A : Type} (k : str -> option A) g rest a :
  ~ In "]"%char g -> no_newline g -> k rest = Some a ->
  lazy_bracket k (g ++ "]"%char :: rest) = Some (g, a).
Proof.
  intros Hb Hn Hk. induction g as [|c g IH]; cbn [app lazy_bracket].
  - rewrite Hk. reflexivity.
  - destruct (Ascii.eqb_spec c "]"%char) as [->|_];
      [exfalso; apply Hb; left; reflexivity|].
    destruct (Ascii.eqb_spec c chr_nl) as [->|_];
      [exfalso; apply Hn; left; reflexivity|].
    rewrite IH; [reflexivity | |].
    + intros H. apply Hb. right. exact H.
    + intros H. apply Hn. right. exact H.
Qed.

Lemma rest_of_line_all s : no_newline s -> rest_of_line s = s.
Proof.
  unfold no_newline, rest_of_line. induction s as [|c s IH]; [reflexivity|].
  intros H. simpl.
  destruct (Ascii.eqb_spec c chr_nl) as [->|_];
    [exfalso; apply H; left; reflexivity|].
  simpl. rewrite IH; [reflexivity|]. intros H'. apply H. right. exact H'.
Qed.

Lemma log_pattern_match_log_line ts lvl comp msg :
  clean_fields ts lvl comp msg ->
  log_pattern_match (log_line ts lvl comp msg) = Some (ts, lvl, Some comp, msg).
Proof.
  intros [Hts1 [Hts2 [Hl1 [Hl2 [Hc1 [Hc2 [Hm1 [Hm2 [Hm3 _]]]]]]]]].
  unfold log_line. cbn [lit list_ascii_of_string app].
  unfold log_pattern_match. cbn [Ascii.eqb Bool.eqb].
  assert (Hmsg : spaces1 (" "%char :: msg) = Some msg).
  { unfold spaces1. cbn [is_space]. destruct msg as [|m ms]; [congruence|].
    change (is_space " "%char) with true. cbv iota.
    rewrite drop_while_stop; [reflexivity|]. apply Hm3. reflexivity. }
  assert (Hlvl : level_part (" "%char :: "["%char :: lvl ++ "]"%char
                             :: " "%char :: "["%char :: comp ++ "]"%char
                             :: " "%char :: msg)
                 = Some (lvl, "["%char :: comp ++ "]"%char :: " "%char :: msg)).
  { unfold level_part, spaces1 at 1.
    change (is_space " "%char) with true. cbv iota.
    rewrite drop_while_stop by reflexivity.
    unfold bracket_word. cbn [Ascii.eqb Bool.eqb].
    destruct (drop_while_app_stop is_word lvl
                ("]"%char :: " "%char :: "["%char :: comp ++ "]"%char
                 :: " "%char :: msg) Hl2) as [E1 E2].
    { intros c Hc. injection Hc as <-. reflexivity. }
    rewrite E1, E2. destruct lvl as [|w ws]; [congruence|].
    cbn [Ascii.eqb Bool.eqb]. unfold spaces1.
    change (is_space " "%char) with true. cbv iota.
    rewrite drop_while_stop by reflexivity. reflexivity. }
  rewrite (lazy_bracket_app level_part ts _ _ Hts1 Hts2 Hlvl).
  unfold component_and_message. cbn [Ascii.eqb Bool.eqb].
  rewrite (lazy_bracket_app spaces1 comp _ _ Hc1 Hc2 Hmsg).
  rewrite (rest_of_line_all msg Hm2). reflexivity.
Qed.

Lemma log_line_trimmed ts lvl comp msg :
  msg <> [] -> trimmed msg -> trimmed (log_line ts lvl comp msg).
Proof.
  intros Hne [_ H2]. split.
  - unfold log_line. cbn [lit list_ascii_of_string app].
    intros c H. injection H as <-. reflexivity.
  - assert (E : log_line ts lvl comp msg
                = (lit "[" ++ ts ++ lit "] [" ++ lvl ++ lit "] [" ++ comp
                   ++ lit "] ") ++ msg).
    { unfold log_line. rewrite <- !app_assoc. reflexivity. }
    rewrite E, rev_app_distr.
    destruct (rev msg) as [|x xs] eqn:Er.
    + apply (f_equal (@rev ascii)) in Er. rewrite rev_involutive in Er.
      simpl in Er. congruence.
    + exact H2.
Qed.

(** X3: a line written by the normalizer from clean fields is read back by
    the line parser with the same timestamp, level and message; the
    component comes back too, "System" standing in for an empty one. *)
Theorem synthesized_line_parses_back (ts lvl comp msg : str) :
  clean_fields ts lvl comp msg ->
  parse_line (log_line ts lvl comp msg)
  = Some (mk_entry ts lvl (component_or_system (Some comp)) msg
                   (log_line ts lvl comp msg)).
Proof.
  intros H. unfold parse_line.
  assert (T : trimmed (log_line ts lvl comp msg)).
  { apply log_line_trimmed; apply H. }
  rewrite (strip_trimmed _ T), (log_pattern_match_log_line _ _ _ _ H).
  reflexivity.
Qed.

Lemma synthesized_line_parses_back_witness :
  parse_line (log_line (lit "2025-11-27T14:02:01") (lit "METRICS")
                       (lit "system") (lit "CPU: 78% | MEM: 600MB"))
  = Some (mk_entry (lit "2025-11-27T14:02:01") (lit "METRICS")
                   (component_or_system (Some (lit "system")))
                   (lit "CPU: 78% | MEM: 600MB")
                   (log_line (lit "2025-11-27T14:02:01") (lit "METRICS")
                             (lit "system") (lit "CPU: 78% | MEM: 600MB"))).
Proof.
  apply (synthesized_line_parses_back (lit "2025-11-27T14:02:01")
           (lit "METRICS") (lit "system") (lit "CPU: 78% | MEM: 600MB")).
  unfold clean_fields, no_newline, trimmed.
  repeat split; try discriminate; try reflexivity;
    try (vm_compute; intuition discriminate).
  - intros c H. injection H as <-. reflexivity.
  - intros c H. vm_compute in H. injection H as <-. reflexivity.
Defined.

(** ** From the normalized text to the lines *)

Lemma split_nl_single x : no_newline x -> split_nl x = [x].
Proof.
  unfold no_newline. induction x as [|c x IH]; [reflexivity|].
  intros H. cbn [split_nl].
  destruct (Ascii.eqb_spec c chr_nl) as [->|_];
    [exfalso; apply H; left; reflexivity|].
  rewrite IH; [reflexivity|]. intros H'. apply H. right. exact H'.
Qed.

Lemma split_nl_app x rest :
  no_newline x -> split_nl (x ++ chr_nl :: rest) = x :: split_nl rest.
Proof.
  unfold no_newline. induction x as [|c x IH]; intros H.
  - cbn [app split_nl]. rewrite Ascii.eqb_refl. reflexivity.
  - cbn [app split_nl].
    destruct (Ascii.eqb_spec c chr_nl) as [->|_];
      [exfalso; apply H; left; reflexivity|].
    rewrite IH; [reflexivity|]. intros H'. apply H. right. exact H'.
Qed.

(** Splitting on newlines undoes joining with newlines, for lines that hold
    no newline themselves (and at least one line). *)
Lemma split_join_lines (ls : list str) :
  ls <> [] -> Forall no_newline ls -> split_nl (join [chr_nl] ls) = ls.
Proof.
  intros Hne Hall. induction Hall as [|x ls Hx Hall IH]; [congruence|].
  destruct ls as [|y r].
  - apply split_nl_single. exact Hx.
  - change (join [chr_nl] (x :: y :: r))
      with (x ++ chr_nl :: join [chr_nl] (y :: r)).
    rewrite (split_nl_app _ _ Hx), IH; [reflexivity | discriminate].
Qed.

Lemma split_nl_no_newline s : Forall no_newline (split_nl s).
Proof.
  induction s as [|c s IH]; cbn [split_nl].
  - constructor; [intros [] | constructor].
  - destruct (Ascii.eqb_spec c chr_nl) as [->|Hc].
    + constructor; [intros [] | exact IH].
    + destruct (split_nl s) as [|h r];
        [repeat constructor; intros [H|[]]; congruence|].
      inversion IH as [|? ? Hh Hr]; subst. constructor; [|exact Hr].
      intros [H | H]; [congruence | exact (Hh H)].
Qed.

(** X4: the lines that [__init__] keeps hold no newline and are not blank. *)
Theorem kept_lines_shape (normalized : str) :
  Forall (fun l => no_newline l /\ is_blank l = false) (lines_of normalized).
Proof.
  unfold lines_of. rewrite Forall_forall. intros l Hl.
  apply filter_In in Hl as [Hin Hb].
  pose proof (split_nl_no_newline (strip normalized)) as F.
  rewrite Forall_forall in F. split; [apply F; exact Hin|].
  destruct (is_blank l); [discriminate | reflexivity].
Qed.

Lemma log_line_no_newline ts lvl comp msg :
  clean_fields ts lvl comp msg -> no_newline (log_line ts lvl comp msg).
Proof.
  intros [_ [Hts [_ [Hl [_ [Hc [_ [Hm _]]]]]]]].
  unfold no_newline, log_line in *. cbn [lit list_ascii_of_string app].
  intros H. repeat (destruct H as [H | H]; [discriminate|]).
  apply in_app_or in H as [H | H]; [exact (Hts H)|].
  repeat (destruct H as [H | H]; [discriminate|]).
  apply in_app_or in H as [H | H].
  { rewrite forallb_forall in Hl. specialize (Hl _ H). discriminate. }
  repeat (destruct H as [H | H]; [discriminate|]).
  apply in_app_or in H as [H | H]; [exact (Hc H)|].
  repeat (destruct H as [H | H]; [discriminate|]).
  exact (Hm H).
Qed.

Lemma join_trimmed ls :
  ls <> [] -> Forall (fun l => l <> [] /\ trimmed l) ls ->
  trimmed (join [chr_nl] ls).
Proof.
  intros Hne Hall. induction Hall as [|x ls [Hx [T1 T2]] Hall IH];
    [congruence|].
  destruct ls as [|y r]; [split; assumption|].
  change (join [chr_nl] (x :: y :: r))
    with (x ++ chr_nl :: join [chr_nl] (y :: r)).
  destruct IH as [I1 I2]; [discriminate|].
  split.
  - destruct x as [|c x]; [congruence|]. exact T1.
  - intros c. change (x ++ chr_nl :: join [chr_nl] (y :: r))
      with (x ++ [chr_nl] ++ join [chr_nl] (y :: r)).
    rewrite !rev_app_distr.
    destruct (rev (join [chr_nl] (y :: r))) as [|z zs] eqn:E.
    + apply (f_equal (@rev ascii)) in E. rewrite rev_involutive in E.
      exfalso. inversion Hall as [|? ? [Hy _] _]; subst.
      destruct y as [|y0 y]; [congruence|].
      destruct r; discriminate.
    + exact (I2 c).
Qed.

Lemma trimmed_not_blank l : l <> [] -> trimmed l -> is_blank l = false.
Proof.
  intros Hne T. unfold is_blank. rewrite (strip_trimmed l T).
  destruct l; [congruence | reflexivity].
Qed.

(** When the normalizer writes one line per record from clean fields and
    joins the lines with newlines, the analyzer reads exactly one entry per
    record, in order, with the fields of the record. *)
Lemma parsed_text_of_fields (records : list fields) :
  Forall fields_clean records ->
  parse_lines (lines_of (join [chr_nl] (map line_of_fields records)))
  = map entry_of_fields records.
Proof.
  intros Hall. destruct records as [|f0 fs].
  { reflexivity. }
  set (records := f0 :: fs) in *.
  assert (Hshape : Forall (fun l => l <> [] /\ trimmed l /\ no_newline l)
                          (map line_of_fields records)).
  { apply Forall_map. revert Hall. apply Forall_impl.
    intros [[[ts lvl] comp] msg] H. cbn [fields_clean line_of_fields] in *.
    pose proof (log_line_trimmed ts lvl comp msg) as T.
    split; [|split].
    - unfold log_line. cbn [lit list_ascii_of_string app]. discriminate.
    - apply T; apply H.
    - apply log_line_no_newline. exact H. }
  unfold lines_of. rewrite strip_trimmed.
  2:{ apply join_trimmed; [discriminate|].
      revert Hshape. apply Forall_impl. tauto. }
  rewrite split_join_lines.
  2:{ discriminate. }
  2:{ revert Hshape. apply Forall_impl. tauto. }
  rewrite forallb_filter_id.
  2:{ rewrite forallb_forall. intros l Hl. rewrite Forall_forall in Hshape.
      destruct (Hshape l Hl) as [H1 [H2 _]].
      rewrite (trimmed_not_blank l H1 H2). reflexivity. }
  clear Hshape. induction Hall as [|[[[ts lvl] comp] msg] r H Hall IH];
    [reflexivity|].
  cbn [map parse_lines line_of_fields entry_of_fields].
  unfold parse_line at 1.
  rewrite strip_trimmed by (apply log_line_trimmed; apply H).
  rewrite (log_pattern_match_log_line _ _ _ _ H), IH. reflexivity.
Qed.

(** ** The clusterer, continued *)

Lemma dict_mem_in k d : dict_mem k d = true <-> In k (map fst d).
Proof.
  induction d as [|[k0 c] d IH]; simpl; [split; [discriminate | tauto]|].
  rewrite orb_true_iff, IH, str_eqb_eq. split; intros [H | H]; auto.
Qed.

Lemma dict_update_keys k f d : map fst (dict_update k f d) = map fst d.
Proof.
  induction d as [|[k0 c] d IH]; simpl; [reflexivity|].
  destruct (str_eqb k k0); simpl; [reflexivity | rewrite IH; reflexivity].
Qed.

Lemma dict_update_in_nodup k f d k' c' :
  NoDup (map fst d) -> In (k', c') (dict_update k f d) ->
  (k' <> k /\ In (k', c') d) \/
  (k' = k /\ exists c, In (k, c) d /\ c' = f c).
Proof.
  induction d as [|[k0 c0] d IH]; simpl; [tauto|].
  intros Hnd. inversion Hnd as [|? ? Hnotin Hnd']; subst.
  destruct (str_eqb k k0) eqn:E.
  - apply str_eqb_eq in E. subst k0. intros [H | H].
    + injection H as <- <-. right. split; [reflexivity|]. exists c0. auto.
    + left. split; [|right; exact H]. intros ->. apply Hnotin.
      apply in_map_iff. exists (k, c'). auto.
  - apply str_eqb_neq in E. intros [H | H].
    + injection H as <- <-. left. split; [congruence | left; reflexivity].
    + destruct (IH Hnd' H) as [[H1 H2] | [H1 [c [H2 H3]]]].
      * left. auto.
      * right. split; [exact H1|]. exists c. auto.
Qed.

Lemma entries_with_snoc k pd e :
  entries_with k (pd ++ [e])
  = entries_with k pd ++ (if str_eqb (entry_signature e) k then [e] else []).
Proof. unfold entries_with. rewrite filter_app. reflexivity. Qed.

Lemma cluster_step_tally pd d e :
  tally_kept pd d -> tally_kept (pd ++ [e]) (cluster_step d e).
Proof.
  intros [Hnd [Hin Hout]]. unfold cluster_step.
  change (signature (e_level e) (mask (e_message e)))
    with (entry_signature e).
  set (sg := entry_signature e).
  set (fresh := mk_cluster (mask (e_message e)) (e_level e) 0 (e_message e) []).
  set (d1 := if dict_mem sg d then d else d ++ [(sg, fresh)]).
  assert (Hnd1 : NoDup (map fst d1)).
  { unfold d1. destruct (dict_mem sg d) eqn:M; [exact Hnd|].
    rewrite map_app. cbn [map fst].
    apply NoDup_app; [exact Hnd | repeat constructor; intros [] |].
    intros k Hk [<- | []]. apply dict_mem_in in Hk. congruence. }
  assert (Hin1 : forall k c, In (k, c) d1 ->
            c_count c = Z.of_nat (length (entries_with k pd)) /\
            c_timestamps c = map e_timestamp (entries_with k pd) /\
            (k <> sg -> In (k, c) d)).
  { unfold d1. intros k c Hc. destruct (dict_mem sg d) eqn:M.
    - destruct (Hin k c Hc) as [H1 [H2 _]]. auto.
    - apply in_app_or in Hc as [Hc | [Hc | []]].
      + destruct (Hin k c Hc) as [H1 [H2 _]]. auto.
      + injection Hc as <- <-. rewrite (Hout sg M). unfold fresh.
        repeat split; congruence. }
  assert (Hmem1 : forall k, dict_mem k d1 = false ->
            dict_mem k d = false /\ k <> sg).
  { unfold d1. intros k Hk. destruct (dict_mem sg d) eqn:M.
    - split; [exact Hk | congruence].
    - rewrite dict_mem_app in Hk. apply orb_false_iff in Hk as [H1 H2].
      split; [exact H1|]. cbn [dict_mem] in H2. rewrite orb_false_r in H2.
      apply str_eqb_neq in H2. exact H2. }
  clearbody d1. split; [|split].
  - rewrite dict_update_keys. exact Hnd1.
  - intros k c Hc.
    apply (dict_update_in_nodup _ _ _ _ _ Hnd1) in Hc
      as [[Hk Hc] | [-> [c0 [Hc ->]]]]; rewrite entries_with_snoc; fold sg.
    + destruct (Hin1 k c Hc) as [H1 [H2 H3]].
      assert (E : str_eqb sg k = false) by (apply str_eqb_neq; congruence).
      rewrite E, app_nil_r. repeat split; auto.
      exact (proj2 (proj2 (Hin k c (H3 Hk)))).
    + destruct (Hin1 sg c0 Hc) as [H1 [H2 _]].
      rewrite str_eqb_refl. cbn [fold_in c_count c_timestamps].
      rewrite length_app, map_app, H1, H2. cbn [length map].
      repeat split; [lia|]. destruct (entries_with sg pd); discriminate.
  - intros k Hk. rewrite dict_update_mem in Hk.
    destruct (Hmem1 k Hk) as [H1 H2]. rewrite entries_with_snoc, (Hout k H1).
    fold sg.
    assert (E : str_eqb sg k = false) by (apply str_eqb_neq; congruence).
    rewrite E. reflexivity.
Qed.

Lemma all_clusters_tally pd : tally_kept pd (all_clusters pd).
Proof.
  induction pd as [|e pd IH] using rev_ind.
  - split; [constructor | split; [intros k c [] | reflexivity]].
  - unfold all_clusters. rewrite fold_left_app. cbn [fold_left].
    apply cluster_step_tally. exact IH.
Qed.

Lemma cluster_logs_in_signed pd c :
  In c (cluster_logs pd) -> In (cluster_signature c, c) (all_clusters pd).
Proof.
  intros H. apply cluster_logs_in in H as [k H].
  destruct (all_clusters_keep pd) as [Hin _].
  destruct (Hin k c H) as [Hk _]. unfold cluster_signature. rewrite <- Hk.
  exact H.
Qed.

(** X5: a returned cluster counts exactly the parsed entries that carry its
    signature (at least one), lists their timestamps in the order of the
    run, and has the masked form of its own example as pattern. *)
Theorem cluster_tallies_its_entries (pd : list entry) (c : cluster) :
  In c (cluster_logs pd) ->
  c_count c = Z.of_nat (length (entries_with (cluster_signature c) pd)) /\
  c_timestamps c = map e_timestamp (entries_with (cluster_signature c) pd) /\
  1 <= c_count c /\
  c_pattern c = mask (c_example c).
Proof.
  intros H. pose proof (cluster_logs_in_signed pd c H) as Hs.
  destruct (all_clusters_tally pd) as [_ [Hin _]].
  destruct (Hin _ _ Hs) as [H1 [H2 H3]].
  destruct (all_clusters_keep pd) as [Hk _].
  destruct (Hk _ _ Hs) as [_ [e [_ [E1 [_ E3]]]]].
  repeat split; auto.
  - rewrite H1. destruct (entries_with (cluster_signature c) pd);
      [congruence | cbn [length]; lia].
  - rewrite E1. exact E3.
Qed.

Lemma keys_are_signatures (d : cluster_dict) :
  (forall k c, In (k, c) d -> k = cluster_signature c) ->
  map fst d = map cluster_signature (map snd d).
Proof.
  induction d as [|[k c] d IH]; intros H; [reflexivity|].
  cbn [map fst snd]. rewrite (H k c (or_introl eq_refl)), IH; [reflexivity|].
  intros k' c' Hc. apply H. right. exact Hc.
Qed.

Lemma NoDup_firstn {A : Type} (n : nat) (l : list A) :
  NoDup l -> NoDup (firstn n l).
Proof.
  intros H. rewrite <- (firstn_skipn n l) in H.
  apply NoDup_app_remove_r in H. exact H.
Qed.

Lemma all_signatures_distinct pd :
  NoDup (map cluster_signature (sort_by_count (map snd (all_clusters pd)))).
Proof.
  destruct (all_clusters_tally pd) as [Hnd _].
  destruct (all_clusters_keep pd) as [Hk _].
  rewrite keys_are_signatures in Hnd.
  - eapply Permutation_NoDup; [|exact Hnd].
    apply Permutation_map, sort_by_count_perm.
  - intros k c Hc. apply (Hk k c Hc).
Qed.

(** X6: the returned clusters have pairwise different signatures (level
    and pattern); and when the run has at most twenty signatures, every
    parsed entry has its signature among the returned clusters. *)
Theorem clusters_partition_entries (pd : list entry) :
  NoDup (map cluster_signature (cluster_logs pd)) /\
  ((length (all_clusters pd) <= 20)%nat ->
   forall e, In e pd ->
     exists c, In c (cluster_logs pd) /\
               cluster_signature c = entry_signature e).
Proof.
  split.
  - unfold cluster_logs. rewrite <- firstn_map.
    apply NoDup_firstn, all_signatures_distinct.
  - intros Hlen e He.
    destruct (all_clusters_tally pd) as [_ [_ Hout]].
    destruct (dict_mem (entry_signature e) (all_clusters pd)) eqn:M.
    + apply dict_mem_in, in_map_iff in M as [[k c] [Ek Hc]].
      cbn [fst] in Ek. subst k. exists c. split.
      * unfold cluster_logs. rewrite firstn_all2.
        -- eapply Permutation_in; [apply sort_by_count_perm|].
           apply in_map_iff. exists (entry_signature e, c). auto.
        -- rewrite <- (Permutation_length (sort_by_count_perm _)).
           rewrite length_map. exact Hlen.
      * destruct (all_clusters_keep pd) as [Hk _].
        symmetry. apply (Hk _ _ Hc).
    + exfalso. specialize (Hout _ M).
      assert (In e (entries_with (entry_signature e) pd)).
      { apply filter_In. split; [exact He | apply str_eqb_refl]. }
      rewrite Hout in H. exact H.
Qed.

Lemma insert_by_count_sorted c l :
  counts_descend l -> counts_descend (insert_by_count c l).
Proof.
  unfold counts_descend. induction 1 as [|y r Hr IH Hy]; cbn [insert_by_count].
  - repeat constructor.
  - destruct (Z.ltb_spec (c_count c) (c_count y)) as [Hlt | Hge].
    + constructor; [exact IH|].
      eapply Permutation_Forall; [apply insert_by_count_perm|].
      constructor; [lia | exact Hy].
    + constructor; [constructor; assumption|].
      constructor; [lia|].
      revert Hy. apply Forall_impl. intros z Hz. lia.
Qed.

Lemma sort_by_count_sorted l : counts_descend (sort_by_count l).
Proof.
  induction l as [|c l IH]; cbn [sort_by_count fold_right].
  - constructor.
  - apply insert_by_count_sorted. exact IH.
Qed.

Lemma sorted_app_inv (a b : list cluster) :
  counts_descend (a ++ b) ->
  counts_descend a /\
  forall x y, In x a -> In y b -> c_count y <= c_count x.
Proof.
  unfold counts_descend. induction a as [|c a IH]; cbn [app]; intros H.
  - split; [constructor | intros x y []].
  - inversion H as [|? ? Hs Hf]; subst.
    destruct (IH Hs) as [I1 I2]. apply Forall_app in Hf as [F1 F2].
    split; [constructor; assumption|].
    intros x y [<- | Hx] Hy.
    + rewrite Forall_forall in F2. exact (F2 y Hy).
    + exact (I2 x y Hx Hy).
Qed.

(** X7: the returned clusters are at most twenty, in descending order of
    count, and every cluster that is left out counts no more than any
    cluster that is returned. *)
Theorem returned_clusters_are_the_top (pd : list entry) :
  (length (cluster_logs pd) <= 20)%nat /\
  counts_descend (cluster_logs pd) /\
  forall c c',
    In c (cluster_logs pd) -> In c' (map snd (all_clusters pd)) ->
    ~ In c' (cluster_logs pd) -> c_count c' <= c_count c.
Proof.
  unfold cluster_logs.
  set (l := sort_by_count (map snd (all_clusters pd))).
  pose proof (sort_by_count_sorted (map snd (all_clusters pd))) as S.
  fold l in S. rewrite <- (firstn_skipn 20 l) in S.
  apply sorted_app_inv in S as [S1 S2].
  split; [apply firstn_le_length|]. split; [exact S1|].
  intros c c' Hc Hc' Hnot. apply (S2 c c' Hc).
  assert (Hl : In c' l).
  { eapply Permutation_in; [apply sort_by_count_perm | exact Hc']. }
  rewrite <- (firstn_skipn 20 l) in Hl.
  apply in_app_or in Hl as [Hl | Hl]; [contradiction | exact Hl].
Qed.

Lemma insert_by_count_filter n c l :
  filter (fun x => c_count x =? n) (insert_by_count c l)
  = filter (fun x => c_count x =? n) (c :: l).
Proof.
  induction l as [|y r IH]; [reflexivity|].
  cbn [insert_by_count].
  destruct (Z.ltb_spec (c_count c) (c_count y)) as [Hlt | Hge];
    [|reflexivity].
  cbn [filter] in *. rewrite IH.
  destruct (Z.eqb_spec (c_count c) n) as [Ec | Ec];
    destruct (Z.eqb_spec (c_count y) n) as [Ey | Ey];
    try reflexivity.
  lia.
Qed.

Lemma dict_mem_existsb k d : dict_mem k d = existsb (str_eqb k) (map fst d).
Proof.
  induction d as [|[k0 c] d IH]; simpl; [reflexivity|].
  rewrite IH. reflexivity.
Qed.

Lemma cluster_step_keys d e :
  map fst (cluster_step d e) = set_add (entry_signature e) (map fst d).
Proof.
  unfold cluster_step, set_add. rewrite dict_update_keys.
  change (signature (e_level e) (mask (e_message e)))
    with (entry_signature e).
  rewrite <- dict_mem_existsb.
  destruct (dict_mem (entry_signature e) d); [reflexivity|].
  rewrite map_app. reflexivity.
Qed.

Lemma fold_cluster_step_keys pd d :
  map fst (fold_left cluster_step pd d)
  = fold_left (fun seen e => set_add (entry_signature e) seen) pd (map fst d).
Proof.
  revert d; induction pd as [|e pd IH]; intros d; [reflexivity|].
  cbn [fold_left]. rewrite IH, cluster_step_keys. reflexivity.
Qed.

(** X8: before the sort the clusters stand in the order in which their
    signatures first appeared in the run, and the sort is stable: the
    clusters of any one count keep that order. *)
Theorem equal_counts_keep_their_order (pd : list entry) (n : Z) :
  map cluster_signature (map snd (all_clusters pd)) = signatures_in_order pd /\
  filter (fun c => c_count c =? n)
         (sort_by_count (map snd (all_clusters pd)))
  = filter (fun c => c_count c =? n) (map snd (all_clusters pd)).
Proof.
  split.
  - rewrite <- keys_are_signatures.
    + unfold all_clusters, signatures_in_order.
      rewrite fold_cluster_step_keys. reflexivity.
    + intros k c Hc. destruct (all_clusters_keep pd) as [Hk _].
      apply (Hk k c Hc).
  - induction (map snd (all_clusters pd)) as [|c l IH]; [reflexivity|].
    cbn [sort_by_count fold_right].
    change (fold_right insert_by_count [] l) with (sort_by_count l).
    rewrite insert_by_count_filter. cbn [filter]. rewrite IH. reflexivity.
Qed.

(** ** Level counts and components *)

Lemma parsed_entry_component l e :
  parse_line l = Some e -> e_component e <> [].
Proof.
  unfold parse_line.
  destruct (log_pattern_match (strip l)) as [[[[a b] c] d]|]; [|discriminate].
  intros H. injection H as <-. cbn.
  destruct c as [[|x xs]|]; discriminate.
Qed.


Lemma counter_add_keys k d :
  map fst (counter_add k d)
  = if existsb (str_eqb k) (map fst d) then map fst d else map fst d ++ [k].
Proof.
  induction d as [|[k0 n] d IH]; [reflexivity|].
  cbn [counter_add map fst existsb].
  destruct (str_eqb k k0); cbn [map fst orb]; [reflexivity|].
  rewrite IH. destruct (existsb (str_eqb k) (map fst d)); reflexivity.
Qed.

Lemma existsb_str_in k l : existsb (str_eqb k) l = true <-> In k l.
Proof.
  rewrite existsb_exists. split.
  - intros [x [Hx E]]. apply str_eqb_eq in E. subst. exact Hx.
  - intros H. exists k. split; [exact H | apply str_eqb_refl].
Qed.

Lemma counter_add_in k d k' n' :
  NoDup (map fst d) -> In (k', n') (counter_add k d) ->
  (k' <> k /\ In (k', n') d) \/
  (k' = k /\ ((exists n, In (k, n) d /\ n' = n + 1) \/
              (~ In k (map fst d) /\ n' = 1))).
Proof.
  induction d as [|[k0 n0] d IH]; cbn [counter_add map fst].
  - intros _ [H | []]. injection H as <- <-. right. split; [reflexivity|].
    right. split; [intros [] | reflexivity].
  - intros Hnd. inversion Hnd as [|? ? Hnotin Hnd']; subst.
    destruct (str_eqb k k0) eqn:E.
    + apply str_eqb_eq in E. subst k0. intros [H | H].
      * injection H as <- <-. right. split; [reflexivity|]. left.
        exists n0. split; [left; reflexivity | reflexivity].
      * left. split; [|right; exact H]. intros ->. apply Hnotin.
        apply in_map_iff. exists (k, n'). auto.
    + apply str_eqb_neq in E. intros [H | H].
      * injection H as <- <-. left. split; [congruence | left; reflexivity].
      * destruct (IH Hnd' H) as [[H1 H2] | [H1 [[n [H2 H3]] | [H2 H3]]]].
        -- left. split; [exact H1 | right; exact H2].
        -- right. split; [exact H1|]. left. exists n.
           split; [right; exact H2 | exact H3].
        -- right. split; [exact H1|]. right. split; [|exact H3].
           cbn [In]. intros [H4 | H4]; [congruence | exact (H2 H4)].
Qed.

Lemma entries_of_level_snoc lvl pd e :
  entries_of_level lvl (pd ++ [e])
  = entries_of_level lvl pd ++ (if str_eqb (e_level e) lvl then [e] else []).
Proof. unfold entries_of_level. rewrite filter_app. reflexivity. Qed.

Lemma counter_add_levels pd d e :
  levels_kept pd d -> levels_kept (pd ++ [e]) (counter_add (e_level e) d).
Proof.
  intros [Hnd [Hin Hout]]. split; [|split].
  - rewrite counter_add_keys.
    destruct (existsb (str_eqb (e_level e)) (map fst d)) eqn:M; [exact Hnd|].
    apply NoDup_app; [exact Hnd | repeat constructor; intros [] |].
    intros k Hk [<- | []]. apply existsb_str_in in Hk. congruence.
  - intros lvl n Hn. rewrite entries_of_level_snoc.
    apply (counter_add_in _ _ _ _ Hnd) in Hn
      as [[Hk Hn] | [-> [[n0 [Hn ->]] | [Hn ->]]]].
    + assert (E : str_eqb (e_level e) lvl = false)
        by (apply str_eqb_neq; congruence).
      rewrite E, app_nil_r. apply (Hin lvl n Hn).
    + rewrite str_eqb_refl, length_app. cbn [length].
      destruct (Hin _ _ Hn) as [H1 H2]. split; lia.
    + rewrite str_eqb_refl, (Hout _ Hn). cbn. split; lia.
  - intros lvl Hl. rewrite counter_add_keys in Hl.
    rewrite entries_of_level_snoc.
    destruct (existsb (str_eqb (e_level e)) (map fst d)) eqn:M.
    + assert (E : str_eqb (e_level e) lvl = false).
      { apply str_eqb_neq. intros <-. apply Hl.
        apply existsb_str_in. exact M. }
      rewrite E, app_nil_r. apply Hout. exact Hl.
    + assert (E : str_eqb (e_level e) lvl = false).
      { apply str_eqb_neq. intros <-. apply Hl.
        apply in_or_app. right. left. reflexivity. }
      rewrite E, app_nil_r. apply Hout. intros H. apply Hl.
      apply in_or_app. left. exact H.
Qed.

Lemma count_levels_kept pd : levels_kept pd (count_levels pd).
Proof.
  induction pd as [|e pd IH] using rev_ind.
  - split; [constructor | split; [intros l n [] | reflexivity]].
  - unfold count_levels. rewrite fold_left_app. cbn [fold_left].
    apply counter_add_levels. exact IH.
Qed.

Lemma counter_add_sum k d :
  sum_Z (map snd (counter_add k d)) = sum_Z (map snd d) + 1.
Proof.
  induction d as [|[k0 n] d IH]; [reflexivity|].
  cbn [counter_add]. destruct (str_eqb k k0); cbn [map snd sum_Z fold_right].
  - fold (sum_Z (map snd d)). lia.
  - fold (sum_Z (map snd (counter_add k d))). fold (sum_Z (map snd d)).
    rewrite IH. lia.
Qed.

Lemma count_levels_sum pd :
  sum_Z (map snd (count_levels pd)) = Z.of_nat (length pd).
Proof.
  unfold count_levels.
  assert (G : forall d, sum_Z (map snd (fold_left
                (fun d e => counter_add (e_level e) d) pd d))
              = sum_Z (map snd d) + Z.of_nat (length pd)).
  { induction pd as [|e pd IH]; intros d; cbn [fold_left length].
    - lia.
    - rewrite IH, counter_add_sum. lia. }
  rewrite G. reflexivity.
Qed.

(** X9: in a report the level counts have one key per level seen, each
    counting, at least once, the parsed entries of that level, and the
    counts add up to [parsed_entries]. *)
Theorem level_counts_tally (text : str) (r : report) :
  analyze_text text = Ok r ->
  let pd := parse_lines (lines_of text) in
  NoDup (map fst (log_levels r)) /\
  (forall lvl n, In (lvl, n) (log_levels r) ->
     n = Z.of_nat (length (entries_of_level lvl pd)) /\ 1 <= n) /\
  (forall e, In e pd -> In (e_level e) (map fst (log_levels r))) /\
  sum_Z (map snd (log_levels r)) = parsed_entries r.
Proof.
  intros H. apply analyze_text_inv in H as [m [_ ->]].
  cbn [log_levels parsed_entries]. cbv zeta.
  set (pd := parse_lines (lines_of text)).
  destruct (count_levels_kept pd) as [H1 [H2 H3]].
  split; [exact H1|]. split; [exact H2|]. split; [|apply count_levels_sum].
  intros e He.
  destruct (in_dec (list_eq_dec ascii_dec) (e_level e)
                   (map fst (count_levels pd))) as [Hin | Hnot];
    [exact Hin|].
  exfalso. specialize (H3 _ Hnot).
  assert (In e (entries_of_level (e_level e) pd)).
  { apply filter_In. split; [exact He | apply str_eqb_refl]. }
  rewrite H3 in H. exact H.
Qed.

Lemma level_counts_tally_witness :
  let pd := parse_lines (lines_of sample_text) in
  NoDup (map fst (log_levels sample_report)) /\
  (forall lvl n, In (lvl, n) (log_levels sample_report) ->
     n = Z.of_nat (length (entries_of_level lvl pd)) /\ 1 <= n) /\
  (forall e, In e pd -> In (e_level e) (map fst (log_levels sample_report))) /\
  sum_Z (map snd (log_levels sample_report)) = parsed_entries sample_report.
Proof.
  apply (level_counts_tally sample_text sample_report).
  vm_compute. reflexivity.
Defined.

Lemma set_add_spec x l y : In y (set_add x l) <-> y = x \/ In y l.
Proof.
  unfold set_add. destruct (existsb (str_eqb x) l) eqn:E.
  - apply existsb_str_in in E. split; [auto | intros [-> | H]; auto].
  - rewrite in_app_iff. cbn [In]. split; intros H; intuition.
Qed.

Lemma set_add_nodup x l : NoDup l -> NoDup (set_add x l).
Proof.
  intros H. unfold set_add. destruct (existsb (str_eqb x) l) eqn:E; [exact H|].
  apply NoDup_app; [exact H | repeat constructor; intros [] |].
  intros k Hk [<- | []]. apply existsb_str_in in Hk. congruence.
Qed.

(** X10: the components of a report list every component of the parsed
    entries exactly once, and nothing else. *)
Theorem components_are_those_seen (text : str) (r : report) :
  analyze_text text = Ok r ->
  NoDup (components r) /\
  forall comp, In comp (components r) <->
    exists e, In e (parse_lines (lines_of text)) /\ e_component e = comp.
Proof.
  intros H. apply analyze_text_inv in H as [m [_ ->]]. cbn [components].
  set (ls := lines_of text).
  assert (Hne : forall e, In e (parse_lines ls) -> e_component e <> []).
  { intros e He. clearbody ls. induction ls as [|l ls IH]; [destruct He|].
    cbn [parse_lines] in He. destruct (parse_line l) as [e'|] eqn:E.
    - destruct He as [<- | He]; [|exact (IH He)].
      apply (parsed_entry_component _ _ E).
    - exact (IH He). }
  revert Hne. generalize (parse_lines ls) as pd. intros pd Hne.
  unfold component_set.
  induction pd as [|e pd IH] using rev_ind.
  - split; [constructor|]. intros comp. split; [intros [] | intros [e [[] _]]].
  - rewrite fold_left_app. cbn [fold_left].
    destruct IH as [I1 I2].
    { intros e' He'. apply Hne. apply in_or_app. left. exact He'. }
    assert (Hc : e_component e <> []).
    { apply Hne. apply in_or_app. right. left. reflexivity. }
    destruct (e_component e) as [|x xs] eqn:Ec; [congruence|].
    split; [apply set_add_nodup; exact I1|].
    intros comp. rewrite set_add_spec, I2. split.
    + intros [-> | [e' [He' E']]].
      * exists e. split; [apply in_or_app; right; left; reflexivity | exact Ec].
      * exists e'. split; [apply in_or_app; left; exact He' | exact E'].
    + intros [e' [He' E']]. apply in_app_or in He' as [He' | [<- | []]].
      * right. exists e'. auto.
      * left. congruence.
Qed.

(** ** Health and correlation, continued *)

Lemma cluster_count_positive pd c : In c (cluster_logs pd) -> 1 <= c_count c.
Proof.
  intros H. pose proof (cluster_logs_in_signed pd c H) as Hs.
  destruct (all_clusters_tally pd) as [_ [Hin _]].
  destruct (Hin _ _ Hs) as [H1 [_ H3]]. rewrite H1.
  destruct (entries_with (cluster_signature c) pd);
    [congruence | cbn [length]; lia].
Qed.

Lemma sum_positive_zero (l : list Z) :
  Forall (fun x => 1 <= x) l -> sum_Z l = 0 -> l = [].
Proof.
  intros H. induction H as [|x l Hx Hl IH]; [reflexivity|].
  cbn [sum_Z fold_right]. fold (sum_Z l). intros E. exfalso.
  assert (0 <= sum_Z l); [|lia].
  clear IH E. induction Hl as [|y l Hy Hl IH]; cbn [sum_Z fold_right];
    [lia|]. fold (sum_Z l). lia.
Qed.

Lemma filter_none {A : Type} (f : A -> bool) (l : list A) :
  Forall (fun x => f x = false) l -> filter f l = [].
Proof.
  induction 1 as [|x l Hx Hl IH]; [reflexivity|].
  cbn [filter]. rewrite Hx. exact IH.
Qed.

(** X11: the health score of a report is 100 exactly when the run has no
    anomaly and no returned cluster of level ERROR or CRITICAL. *)
Theorem full_health_means_no_trouble (text : str) (r : report) :
  analyze_text text = Ok r ->
  (health_score r = 100 <->
   anomalies r = [] /\
   Forall (fun c => is_error_level (c_level c) = false)
          (clusters_of_text text)).
Proof.
  intros H. apply analyze_text_inv in H as [m [_ ->]].
  cbn [health_score anomalies]. unfold clusters_of_text, calculate_health.
  set (pd := parse_lines (lines_of text)).
  set (errs := filter (fun c => is_error_level (c_level c)) (cluster_logs pd)).
  assert (Hpos : Forall (fun x => 1 <= x) (map c_count errs)).
  { apply Forall_map. rewrite Forall_forall. intros c Hc.
    apply filter_In in Hc as [Hc _]. exact (cluster_count_positive pd c Hc). }
  assert (Hnn : 0 <= sum_Z (map c_count errs)).
  { clear -Hpos. induction Hpos as [|x l Hx Hl IH];
      cbn [sum_Z fold_right]; [lia|]. fold (sum_Z l). lia. }
  split.
  - intros E.
    assert (E1 : sum_Z (map c_count errs) = 0) by lia.
    assert (E2 : length (detect_anomalies m) = 0%nat) by lia.
    split; [destruct (detect_anomalies m); [reflexivity | discriminate]|].
    apply (sum_positive_zero _ Hpos) in E1.
    apply map_eq_nil in E1. rewrite Forall_forall. intros c Hc.
    destruct (is_error_level (c_level c)) eqn:L; [|reflexivity].
    exfalso. assert (In c errs) by (apply filter_In; auto).
    rewrite E1 in H. exact H.
  - intros [E1 E2]. rewrite E1.
    assert (E3 : errs = []) by (apply filter_none; exact E2).
    rewrite E3. reflexivity.
Qed.

Lemma full_health_means_no_trouble_witness :
  health_score sample_report = 100 <->
  anomalies sample_report = [] /\
  Forall (fun c => is_error_level (c_level c) = false)
         (clusters_of_text sample_text).
Proof.
  apply (full_health_means_no_trouble sample_text sample_report).
  vm_compute. reflexivity.
Defined.

Lemma uint_chars d :
  forallb is_digit (lit (NilEmpty.string_of_uint d)) = true.
Proof.
  induction d;
    cbn [NilEmpty.string_of_uint lit list_ascii_of_string forallb]; auto.
Qed.

Lemma nilzero_chars d :
  forallb is_digit (lit (NilZero.string_of_uint d)) = true.
Proof.
  destruct d; [reflexivity | ..];
    match goal with
    | |- context [NilZero.string_of_uint ?x] => exact (uint_chars x)
    end.
Qed.

Lemma str_of_Z_chars v :
  forallb (fun c => is_digit c || Ascii.eqb c "-"%char) (str_of_Z v) = true.
Proof.
  unfold str_of_Z, NilZero.string_of_int.
  assert (G : forall d, forallb (fun c => is_digit c || Ascii.eqb c "-"%char)
                                (lit (NilZero.string_of_uint d)) = true).
  { intros d. pose proof (nilzero_chars d) as U.
    rewrite forallb_forall in *. intros c Hc. rewrite (U c Hc). reflexivity. }
  destruct (Z.to_int v) as [d | d]; [apply G|].
  cbn [lit list_ascii_of_string forallb].
  fold (lit (NilZero.string_of_uint d)). rewrite G. reflexivity.
Qed.

Lemma contains_first x sub s : contains (x :: sub) s = true -> In x s.
Proof.
  induction s as [|c s IH]; cbn [contains starts_with].
  - discriminate.
  - intros H. apply orb_true_iff in H as [H | H].
    + apply andb_true_iff in H as [H _]. apply Ascii.eqb_eq in H.
      left. congruence.
    + right. exact (IH H).
Qed.

Lemma cpu_anomaly_no_latency v :
  contains (lit "Latency") (cpu_anomaly v) = false.
Proof.
  destruct (contains (lit "Latency") (cpu_anomaly v)) eqn:E; [|reflexivity].
  exfalso. apply contains_first in E. unfold cpu_anomaly in E.
  apply in_app_or in E as [E | E].
  { cbn in E. repeat (destruct E as [E | E]; [discriminate|]). exact E. }
  apply in_app_or in E as [E | E].
  - pose proof (str_of_Z_chars v) as C. rewrite forallb_forall in C.
    specialize (C _ E). discriminate.
  - cbn in E. destruct E as [E | []]. discriminate.
Qed.

Lemma latency_anomaly_has_latency v :
  contains (lit "Latency") (latency_anomaly v) = true.
Proof.
  apply contains_spec.
  exists (lit "High "), (lit " detected: " ++ str_of_Z v ++ lit "ms").
  reflexivity.
Qed.

Lemma mentions_latency_iff m :
  mentions_latency (detect_anomalies m) <-> 2000 < max_latency m.
Proof.
  unfold mentions_latency, detect_anomalies. split.
  - intros [a [Ha Hs]]. apply contains_spec in Hs.
    destruct (Z.ltb_spec 2000 (max_latency m)) as [L | L]; [exact L|].
    exfalso. destruct (80 <? max_cpu m); cbn [app In] in Ha.
    + destruct Ha as [<- | []]. rewrite cpu_anomaly_no_latency in Hs.
      discriminate.
    + exact Ha.
  - intros L. exists (latency_anomaly (max_latency m)). split.
    + apply Z.ltb_lt in L. rewrite L. apply in_or_app. right. left.
      reflexivity.
    + apply contains_spec, latency_anomaly_has_latency.
Qed.

(** X12: the correlation is reported exactly when the largest latency of
    the run exceeds 2000 and a returned cluster of level ERROR mentions a
    database; a CPU spike alone never brings it about. *)
Theorem correlation_needs_slow_answers (text : str) (r : report) :
  analyze_text text = Ok r ->
  (correlations r = [correlation_text] <->
   2000 < max_latency (metrics_summary r) /\
   has_database_error (clusters_of_text text)).
Proof.
  intros H. apply analyze_text_inv in H as [m [_ ->]].
  cbn [correlations metrics_summary]. unfold clusters_of_text.
  rewrite <- mentions_latency_iff.
  destruct (find_correlations_spec (detect_anomalies m)
              (cluster_logs (parse_lines (lines_of text))))
    as [[Hl [Hd ->]] | [Hno ->]].
  - split; [intros _; split; assumption | reflexivity].
  - split; [discriminate | intros C; exfalso; exact (Hno C)].
Qed.

Lemma correlation_needs_slow_answers_witness :
  correlations sample_report = [correlation_text] <->
  2000 < max_latency (metrics_summary sample_report) /\
  has_database_error (clusters_of_text sample_text).
Proof.
  apply (correlation_needs_slow_answers sample_text sample_report).
  vm_compute. reflexivity.
Defined.

(** ** The metric extractor, continued *)

Lemma digit_val_nonneg c : is_digit c = true -> 0 <= digit_val c.
Proof.
  unfold is_digit, in_range, digit_val. intros H.
  apply andb_true_iff in H as [H _]. apply N.leb_le in H. lia.
Qed.

Lemma int_of_digits_nonneg ds :
  forallb is_digit ds = true -> 0 <= int_of_digits ds.
Proof.
  unfold int_of_digits.
  assert (G : forall acc, 0 <= acc -> forallb is_digit ds = true ->
            0 <= fold_left (fun a c => 10 * a + digit_val c) ds acc).
  { induction ds as [|c ds IH]; intros acc Ha Hd; [exact Ha|].
    cbn [forallb] in Hd. apply andb_true_iff in Hd as [Hc Hd].
    cbn [fold_left]. apply IH; [|exact Hd].
    pose proof (digit_val_nonneg c Hc). lia. }
  apply G. lia.
Qed.

Lemma spaces_digits_then_digits after s ds :
  spaces_digits_then after s = Some ds -> forallb is_digit ds = true.
Proof.
  unfold spaces_digits_then.
  destruct (take_while is_digit (drop_while is_space s)) as [|d r] eqn:E;
    [discriminate|].
  destruct (after _); [|discriminate]. intros H. injection H as <-.
  rewrite <- E. apply take_while_all.
Qed.

Lemma match_cpu_digits s ds :
  match_cpu s = Some ds -> forallb is_digit ds = true.
Proof.
  unfold match_cpu. destruct (after_prefix _ s); [|discriminate].
  apply spaces_digits_then_digits.
Qed.

Lemma match_mem_digits s ds :
  match_mem s = Some ds -> forallb is_digit ds = true.
Proof.
  unfold match_mem. destruct (after_prefix _ s); [|discriminate].
  apply spaces_digits_then_digits.
Qed.

Lemma match_latency_digits s ds :
  match_latency s = Some ds -> forallb is_digit ds = true.
Proof.
  unfold match_latency, match_latency_alt.
  repeat match goal with
         | |- context [after_prefix_ci ?p s] =>
             destruct (after_prefix_ci p s)
         | |- context [spaces_digits_then ?a ?x] =>
             let E := fresh "E" in
             destruct (spaces_digits_then a x) eqn:E;
             [apply spaces_digits_then_digits in E|]
         end; intros H; try discriminate; injection H as <-; assumption.
Qed.

Lemma re_search_some {A : Type} (m : str -> option A) s v :
  re_search m s = Some v -> exists post, m post = Some v.
Proof.
  intros H. apply re_search_first in H as [pre [post [_ [H _]]]].
  exists post. exact H.
Qed.

Lemma contributions_bounded (m : str -> option str) pd :
  (forall s ds, m s = Some ds -> forallb is_digit ds = true) ->
  (length (flat_map (contribution m) pd) <= length pd)%nat /\
  Forall (fun v => 0 <= v) (flat_map (contribution m) pd).
Proof.
  intros Hm. induction pd as [|e pd [IH1 IH2]];
    [split; [reflexivity | constructor]|].
  cbn [flat_map]. unfold contribution at 1 3.
  destruct (re_search m (e_message e)) as [ds|] eqn:E; cbn [app].
  - split; [cbn [length]; lia|]. constructor; [|exact IH2].
    apply re_search_some in E as [post E].
    apply int_of_digits_nonneg. exact (Hm _ _ E).
  - split; [cbn [length]; lia | exact IH2].
Qed.

Lemma extract_metrics_series pd m :
  extract_metrics pd = Ok m ->
  metric_series pd
  = Ok (cpu_series m, memory_series m, latency_series m) /\
  metric_points m = Z.of_nat (length (cpu_series m)) /\
  max_or_zero (cpu_series m) = Ok (max_cpu m) /\
  max_or_zero (latency_series m) = Ok (max_latency m).
Proof.
  unfold extract_metrics.
  destruct (metric_series pd) as [[[cpu mem] lat]|];
    [|discriminate]; cbn [bind].
  destruct (avg_or_zero cpu) as [a1|]; [|discriminate]; cbn [bind].
  destruct (max_or_zero cpu) as [m1|] eqn:E1; [|discriminate]; cbn [bind].
  destruct (avg_or_zero mem) as [a2|]; [|discriminate]; cbn [bind].
  destruct (max_or_zero lat) as [m2|] eqn:E2; [|discriminate]; cbn [bind].
  intros H. injection H as <-. cbn. auto.
Qed.

(** X13: in a report every extracted reading is non-negative, and so are
    the reported maxima; no series has more readings than there are parsed
    entries, and [metric_points] is the length of the CPU series. *)
Theorem readings_are_bounded (text : str) (r : report) :
  analyze_text text = Ok r ->
  let m := metrics_summary r in
  metric_points m = Z.of_nat (length (cpu_series m)) /\
  Z.of_nat (length (cpu_series m)) <= parsed_entries r /\
  Z.of_nat (length (memory_series m)) <= parsed_entries r /\
  Z.of_nat (length (latency_series m)) <= parsed_entries r /\
  Forall (fun v => 0 <= v)
         (cpu_series m ++ memory_series m ++ latency_series m) /\
  0 <= max_cpu m /\ 0 <= max_latency m.
Proof.
  intros H. apply analyze_text_inv in H as [m [Hm ->]].
  cbn [metrics_summary parsed_entries]. cbv zeta.
  set (pd := parse_lines (lines_of text)) in *.
  destruct (extract_metrics_series pd m Hm) as [Hs [Hp [M1 M2]]].
  rewrite metric_series_readable in Hs.
  destruct (forallb readable pd); [|discriminate].
  injection Hs as E1 E2 E3.
  destruct (contributions_bounded match_cpu pd match_cpu_digits) as [L1 F1].
  destruct (contributions_bounded match_mem pd match_mem_digits) as [L2 F2].
  destruct (contributions_bounded match_latency pd match_latency_digits)
    as [L3 F3].
  rewrite E1 in L1, F1. rewrite E2 in L2, F2. rewrite E3 in L3, F3.
  split; [exact Hp|]. repeat (split; [lia|]).
  split; [repeat (apply Forall_app; split); assumption|].
  apply max_or_zero_spec in M1, M2. unfold run_wide_max in *.
  rewrite Forall_forall in F1, F3.
  split.
  - destruct M1 as [[_ ->] | [Hin _]]; [lia | exact (F1 _ Hin)].
  - destruct M2 as [[_ ->] | [Hin _]]; [lia | exact (F3 _ Hin)].
Qed.

Lemma readings_are_bounded_witness :
  let m := metrics_summary sample_report in
  metric_points m = Z.of_nat (length (cpu_series m)) /\
  Z.of_nat (length (cpu_series m)) <= parsed_entries sample_report /\
  Z.of_nat (length (memory_series m)) <= parsed_entries sample_report /\
  Z.of_nat (length (latency_series m)) <= parsed_entries sample_report /\
  Forall (fun v => 0 <= v)
         (cpu_series m ++ memory_series m ++ latency_series m) /\
  0 <= max_cpu m /\ 0 <= max_latency m.
Proof.
  apply (readings_are_bounded sample_text sample_report).
  vm_compute. reflexivity.
Defined.

Lemma float_limit_positive : 0 < float_limit.
Proof. vm_compute. reflexivity. Qed.

Lemma sum_Z_bounds (L : Z) (l : list Z) :
  Forall (fun v => 0 <= v < L) l ->
  0 <= sum_Z l <= (L - 1) * Z.of_nat (length l).
Proof.
  induction 1 as [|x l Hx Hl IH]; cbn [sum_Z fold_right length]; [lia|].
  fold (sum_Z l). lia.
Qed.

Lemma avg_or_zero_in_range l :
  Forall (fun v => 0 <= v < float_limit) l -> exists a, avg_or_zero l = Ok a.
Proof.
  intros H. destruct l as [|x l]; [eexists; reflexivity|].
  pose proof (sum_Z_bounds _ _ H) as B. revert B.
  unfold avg_or_zero, statistics_mean, true_divide.
  set (total := sum_Z (x :: l)). set (n := Z.of_nat (length (x :: l))).
  assert (Hn : 1 <= n) by (unfold n; cbn [length]; lia).
  intros B. destruct (total mod n =? 0); [eexists; reflexivity|].
  pose proof float_limit_positive as P.
  destruct (Z.leb_spec (float_limit * Z.abs n) (Z.abs total)) as [C | C].
  - exfalso. nia.
  - eexists. reflexivity.
Qed.

Lemma digit_val_below_ten c : is_digit c = true -> digit_val c <= 9.
Proof.
  unfold is_digit, in_range, digit_val. intros H.
  apply andb_true_iff in H as [_ H]. apply N.leb_le in H. lia.
Qed.

Lemma int_of_digits_below_power ds :
  forallb is_digit ds = true ->
  int_of_digits ds < 10 ^ Z.of_nat (length ds).
Proof.
  unfold int_of_digits.
  assert (G : forall acc, 0 <= acc -> forallb is_digit ds = true ->
            fold_left (fun a c => 10 * a + digit_val c) ds acc
            < (acc + 1) * 10 ^ Z.of_nat (length ds)).
  { induction ds as [|c ds IH]; intros acc Ha Hd.
    - cbn. lia.
    - cbn [forallb] in Hd. apply andb_true_iff in Hd as [Hc Hd].
      cbn [fold_left length]. rewrite Nat2Z.inj_succ, Z.pow_succ_r by lia.
      pose proof (digit_val_nonneg c Hc) as L.
      pose proof (digit_val_below_ten c Hc) as U.
      specialize (IH (10 * acc + digit_val c) ltac:(lia) Hd).
      assert (P : 0 < 10 ^ Z.of_nat (length ds))
        by (apply Z.pow_pos_nonneg; lia).
      nia. }
  intros H. specialize (G 0 ltac:(lia) H). lia.
Qed.

(** A reading of at most 308 digits is below the largest float. *)
Lemma short_reading_below_float_limit ds :
  forallb is_digit ds = true ->
  Z.of_nat (length ds) <= 308 ->
  int_of_digits ds < float_limit.
Proof.
  intros Hd Hl. pose proof (int_of_digits_below_power ds Hd) as B.
  assert (M : 10 ^ Z.of_nat (length ds) <= 10 ^ 308)
    by (apply Z.pow_le_mono_r; lia).
  assert (F : 10 ^ 308 < float_limit) by (vm_compute; reflexivity).
  lia.
Qed.

Lemma contribution_readings m pd :
  flat_map (contribution m) pd = map int_of_digits (readings m pd).
Proof.
  unfold readings, contribution.
  induction pd as [|e pd IH]; [reflexivity|]. cbn [flat_map].
  rewrite map_app, IH. destruct (re_search m (e_message e)); reflexivity.
Qed.

Lemma readings_convertible pd :
  Forall (fun ds => Z.of_nat (length ds) <= int_max_str_digits)
         (readings match_cpu pd ++ readings match_mem pd
          ++ readings match_latency pd) ->
  forallb readable pd = true.
Proof.
  intros H. apply Forall_app in H as [H1 H]. apply Forall_app in H as [H2 H3].
  induction pd as [|e pd IH]; [reflexivity|].
  unfold readings in H1, H2, H3. cbn [flat_map] in H1, H2, H3.
  apply Forall_app in H1 as [C1 H1]. apply Forall_app in H2 as [C2 H2].
  apply Forall_app in H3 as [C3 H3].
  cbn [forallb]. rewrite (IH H1 H2 H3), andb_true_r.
  unfold readable, convertible. cbn [forallb].
  destruct (re_search match_cpu (e_message e));
    destruct (re_search match_mem (e_message e));
    destruct (re_search match_latency (e_message e));
    repeat match goal with
           | C : Forall _ [_] |- _ => apply Forall_inv in C
           end;
    repeat match goal with
           | |- context [Z.of_nat (length ?d) <=? ?n] =>
               destruct (Z.leb_spec (Z.of_nat (length d)) n); [|lia]
           end;
    reflexivity.
Qed.

Lemma readings_below_limit m pd :
  (forall s ds, m s = Some ds -> forallb is_digit ds = true) ->
  Forall (fun ds => int_of_digits ds < float_limit) (readings m pd) ->
  Forall (fun v => 0 <= v < float_limit) (flat_map (contribution m) pd).
Proof.
  intros Hm H. destruct (contributions_bounded m pd Hm) as [_ F].
  rewrite contribution_readings in *. rewrite Forall_forall in *.
  intros v Hv. split; [exact (F v Hv)|].
  apply in_map_iff in Hv as [ds [<- Hds]]. exact (H ds Hds).
Qed.

(** X14: when every reading the three patterns find in the parsed entries
    has at most 4300 digits, and the CPU and memory readings stay below
    the largest float (a reading of up to 308 digits does), the text is
    analysed without an exception: [analyze] returns a report. *)
Theorem moderate_readings_give_a_report (text : str) :
  Forall (fun ds => Z.of_nat (length ds) <= int_max_str_digits)
         (readings match_cpu (parse_lines (lines_of text))
          ++ readings match_mem (parse_lines (lines_of text))
          ++ readings match_latency (parse_lines (lines_of text))) ->
  Forall (fun ds => int_of_digits ds < float_limit)
         (readings match_cpu (parse_lines (lines_of text))
          ++ readings match_mem (parse_lines (lines_of text))) ->
  exists r, analyze_text text = Ok r.
Proof.
  intros Hd Hb. apply Forall_app in Hb as [Hc Hm].
  unfold analyze_text, analyze, analyzer_of, parse_lines_into.
  cbn [parsed_data lines raw_logs app].
  set (pd := parse_lines (lines_of text)) in *.
  unfold extract_metrics. rewrite metric_series_readable.
  rewrite (readings_convertible pd Hd). cbn [bind].
  destruct (avg_or_zero_in_range (flat_map (contribution match_cpu) pd))
    as [a1 ->].
  { apply readings_below_limit; [exact match_cpu_digits | exact Hc]. }
  destruct (max_or_zero_total (flat_map (contribution match_cpu) pd))
    as [m1 ->].
  destruct (avg_or_zero_in_range (flat_map (contribution match_mem) pd))
    as [a2 ->].
  { apply readings_below_limit; [exact match_mem_digits | exact Hm]. }
  destruct (max_or_zero_total (flat_map (contribution match_latency) pd))
    as [m2 ->].
  cbn [bind]. eexists. reflexivity.
Qed.

Lemma moderate_readings_give_a_report_witness :
  exists r, analyze_text sample_text = Ok r.
Proof.
  apply (moderate_readings_give_a_report sample_text).
  - vm_compute. repeat (apply Forall_cons; [discriminate|]).
    apply Forall_nil.
  - replace (readings match_cpu _ ++ readings match_mem _)
      with [lit "95"] by (vm_compute; reflexivity).
    apply Forall_cons; [vm_compute; reflexivity | apply Forall_nil].
Defined.

(** ** The analyzer object *)

(** X15: [analyze] parses the lines into [parsed_data] each time it is
    called: a second call on the same object counts the entries of its
    lines once more, so that on a fresh object it reports twice the
    entries of the first call. *)
Theorem repeated_analyze_recounts (a : analyzer) (r1 r2 : report) :
  analyze a = Ok r1 ->
  analyze (parse_lines_into a) = Ok r2 ->
  parsed_entries r2
  = parsed_entries r1 + Z.of_nat (length (parse_lines (lines a))) /\
  (parsed_data a = [] -> parsed_entries r2 = 2 * parsed_entries r1).
Proof.
  unfold analyze.
  destruct (extract_metrics (parsed_data (parse_lines_into a))) as [m1|];
    [|discriminate].
  destruct (extract_metrics
              (parsed_data (parse_lines_into (parse_lines_into a))))
    as [m2|]; [|discriminate].
  cbn [bind]. intros H1 H2. injection H1 as <-. injection H2 as <-.
  cbn [parsed_entries parse_lines_into parsed_data lines].
  rewrite !length_app. split; [lia|].
  intros ->. cbn [length]. lia.
Qed.

Lemma repeated_analyze_recounts_witness :
  2 = 1 + Z.of_nat (length (parse_lines
                              (lines (analyzer_of one_line one_line))))
  /\ (parsed_data (analyzer_of one_line one_line) = [] -> 2 = 2 * 1).
Proof.
  apply (repeated_analyze_recounts (analyzer_of one_line one_line)
           (mk_report 1 (count_levels (parse_lines (lines_of one_line)))
              (component_set (parse_lines (lines_of one_line)))
              empty_metrics [] [] 100
              (prepare_llm_context (clusters_of_text one_line) []
                 empty_metrics))
           (mk_report 2
              (count_levels (parse_lines (lines_of one_line)
                             ++ parse_lines (lines_of one_line)))
              (component_set (parse_lines (lines_of one_line)
                              ++ parse_lines (lines_of one_line)))
              empty_metrics [] [] 100
              (prepare_llm_context
                 (cluster_logs (parse_lines (lines_of one_line)
                                ++ parse_lines (lines_of one_line))) []
                 empty_metrics))).
  - vm_compute. reflexivity.
  - vm_compute. reflexivity.
Defined.

(** ** The normalizer, continued *)

Section NormalizerEdges.

Variable pyfloat : Type.
Variable float_truthy : pyfloat -> bool.
Variable json_loads : str -> result (json pyfloat).
Variable json_dumps : json pyfloat -> str.
Variable py_str : json pyfloat -> str.
Variable csv_dictreader : str -> result (list csv_row).

(** X16: text that [json.loads] rejects is handed on unchanged when it lacks
    a comma or a newline, when the CSV reader raises, and when the CSV
    reader finds no data row. *)
Theorem raw_text_passes_through (input : str) (e : exn) :
  json_loads input = Raise e ->
  contains (lit ",") input = false \/ contains [chr_nl] input = false \/
  (exists e', csv_dictreader input = Raise e') \/
  csv_dictreader input = Ok [] ->
  normalize_input float_truthy json_loads json_dumps py_str csv_dictreader
    input = input.
Proof.
  intros HJ H. unfold normalize_input, json_attempt, csv_attempt.
  rewrite HJ. cbn [bind].
  destruct (contains (lit ",") input); [|reflexivity].
  destruct (contains [chr_nl] input); [|reflexivity]. cbn [andb].
  destruct H as [H | [H | [[e' H] | H]]]; try discriminate;
    rewrite H; reflexivity.
Qed.

Lemma lines_of_rows_raises rows row e :
  In row rows -> line_of_row row = Raise e ->
  exists e', lines_of_rows rows = Raise e'.
Proof.
  induction rows as [|r rows IH]; [intros []|].
  intros [<- | Hin] Hr; cbn [lines_of_rows].
  - rewrite Hr. eexists. reflexivity.
  - destruct (line_of_row r) as [l|e0]; [|eexists; reflexivity].
    cbn [bind]. destruct (IH Hin Hr) as [e' ->]. eexists. reflexivity.
Qed.

Lemma overlong_row_raises row :
  overlong_without_message row -> line_of_row row = Raise AttributeError.
Proof.
  intros [Hr [H1 H2]]. unfold line_of_row, other_columns.
  rewrite H1, H2. destruct (rest row); [congruence | reflexivity].
Qed.

(** X17: one CSV row with more fields than the header and no [message] or
    [msg] value is enough for the whole CSV attempt to be given up: the
    key of the extra fields has no [lower], the exception is swallowed, and
    the input is handed on unchanged. *)
Theorem overlong_row_spoils_csv (input : str) (e : exn)
  (rows : list csv_row) (row : csv_row) :
  json_loads input = Raise e ->
  csv_dictreader input = Ok rows ->
  In row rows -> overlong_without_message row ->
  normalize_input float_truthy json_loads json_dumps py_str csv_dictreader
    input = input.
Proof.
  intros HJ HC Hin Hrow. unfold normalize_input, json_attempt, csv_attempt.
  rewrite HJ. cbn [bind].
  destruct (contains (lit ",") input && contains [chr_nl] input);
    [|reflexivity].
  rewrite HC. cbn [bind].
  destruct (lines_of_rows_raises rows row _ Hin (overlong_row_raises row Hrow))
    as [e' ->].
  reflexivity.
Qed.

Lemma line_of_row_fields row :
  rest row = [] -> line_of_row row = Ok (line_of_fields (row_fields row)).
Proof.
  intros Hr. unfold line_of_row, row_fields, line_of_fields, other_columns.
  rewrite Hr. fold (other_values row).
  destruct (field (lit "message") row); [reflexivity|].
  destruct (field (lit "msg") row); reflexivity.
Qed.

Lemma lines_of_rows_fields rows :
  Forall (fun row => rest row = []) rows ->
  lines_of_rows rows
  = Ok (map (fun row => line_of_fields (row_fields row)) rows).
Proof.
  induction 1 as [|row rows Hr Hall IH]; [reflexivity|].
  cbn [lines_of_rows map]. rewrite (line_of_row_fields row Hr), IH.
  reflexivity.
Qed.

(** X18: a CSV text with at least one data row, no row longer than the
    header and clean fields in every row gives the analyzer exactly one
    entry per row, in row order, with the row's timestamp, level,
    component ("System" for an empty one) and message. *)
Theorem csv_rows_become_entries (input : str) (e : exn)
  (rows : list csv_row) :
  json_loads input = Raise e ->
  contains (lit ",") input = true -> contains [chr_nl] input = true ->
  csv_dictreader input = Ok rows -> rows <> [] ->
  Forall (fun row => rest row = [] /\ fields_clean (row_fields row)) rows ->
  parsed_data
    (parse_lines_into
       (init float_truthy json_loads json_dumps py_str csv_dictreader input))
  = map (fun row => entry_of_fields (row_fields row)) rows.
Proof.
  intros HJ H1 H2 HC Hne Hall.
  assert (Hn : normalize_input float_truthy json_loads json_dumps py_str
                 csv_dictreader input
               = join [chr_nl] (map line_of_fields (map row_fields rows))).
  { unfold normalize_input, json_attempt, csv_attempt.
    rewrite HJ, H1, H2, HC. cbn [bind andb].
    rewrite lines_of_rows_fields.
    2:{ revert Hall. apply Forall_impl. tauto. }
    cbn [bind]. rewrite map_map.
    destruct rows as [|r rs]; [congruence | reflexivity]. }
  unfold init, parse_lines_into, analyzer_of.
  cbn [parsed_data lines app]. rewrite Hn, parsed_text_of_fields.
  - apply map_map.
  - apply Forall_map. revert Hall. apply Forall_impl. tauto.
Qed.

(** X19: the normalizer of [backend.py] and the one of the analyzer give
    the same text, unless the input is a JSON object without a string under
    [logs] and without [timestamp] and [time], whose [date] is then read by
    the former only. *)
Theorem normalizers_agree (input : str) :
  (forall kv, json_loads input = Ok (JObj kv) ->
     (exists logs, dict_get (lit "logs") kv = Some (JStr logs)) \/
     truthy float_truthy (get (lit "timestamp") kv) = true \/
     truthy float_truthy (get (lit "time") kv) = true \/
     truthy float_truthy (get (lit "date") kv) = false) ->
  backend_normalize_input float_truthy json_loads json_dumps py_str
    csv_dictreader input
  = normalize_input float_truthy json_loads json_dumps py_str csv_dictreader
      input.
Proof.
  intros H. unfold backend_normalize_input, normalize_input,
    backend_json_attempt, json_attempt.
  destruct (json_loads input) as [parsed|e] eqn:E; [|reflexivity].
  cbn [bind]. destruct parsed as [| | | | |l|kv]; try reflexivity.
  destruct (H kv eq_refl) as [[logs Hl] | Hd].
  - rewrite Hl. reflexivity.
  - assert (G : backend_line_of_object float_truthy json_dumps py_str kv
                = line_of_object float_truthy json_dumps py_str kv).
    { assert (T : py_or float_truthy (get (lit "timestamp") kv)
                    (py_or float_truthy (get (lit "time") kv)
                       (py_or float_truthy (get (lit "date") kv) (JStr [])))
                  = py_or float_truthy (get (lit "timestamp") kv)
                      (py_or float_truthy (get (lit "time") kv) (JStr []))).
      { unfold py_or.
        destruct (truthy float_truthy (get (lit "timestamp") kv));
          [reflexivity|].
        destruct (truthy float_truthy (get (lit "time") kv)); [reflexivity|].
        destruct Hd as [Hd | [Hd | Hd]]; try discriminate.
        rewrite Hd. reflexivity. }
      unfold backend_line_of_object, line_of_object. rewrite T.
      reflexivity. }
    rewrite G. reflexivity.
Qed.

(** X20: a JSON array whose elements are all objects with clean fields
    gives the analyzer exactly one entry per element, in order, with the
    element's timestamp, level, component and message. *)
Theorem array_elements_become_entries (input : str)
  (elements : list (json pyfloat)) :
  json_loads input = Ok (JArr elements) ->
  Forall (fun obj => fields_clean
                       (element_fields float_truthy json_dumps py_str obj))
         elements ->
  parsed_data
    (parse_lines_into
       (init float_truthy json_loads json_dumps py_str csv_dictreader input))
  = map (fun obj => entry_of_fields
                      (element_fields float_truthy json_dumps py_str obj))
        elements.
Proof.
  intros HJ Hall.
  assert (Hn : normalize_input float_truthy json_loads json_dumps py_str
                 csv_dictreader input
               = join [chr_nl]
                   (map line_of_fields
                      (map (element_fields float_truthy json_dumps py_str)
                           elements))).
  { unfold normalize_input, json_attempt. rewrite HJ. cbn [bind].
    f_equal. rewrite map_map. apply map_ext_Forall.
    revert Hall. apply Forall_impl. intros obj Hc.
    destruct obj; try reflexivity;
      exfalso; cbn in Hc; unfold clean_fields in Hc; tauto. }
  unfold init, parse_lines_into, analyzer_of.
  cbn [parsed_data lines app]. rewrite Hn, parsed_text_of_fields.
  - apply map_map.
  - apply Forall_map. exact Hall.
Qed.

End NormalizerEdges.

(** ** Masking, continued *)

(** X21: a masked message holds no match of the number pattern, of the
    address pattern or of the UUID pattern any more. *)
Theorem masked_message_has_no_match (m : str) :
  free m_num None (mask m) /\ free m_ip None (mask m) /\
  free m_uuid None (mask m).
Proof.
  unfold mask. cbn [fold_left mask_patterns fst snd].
  assert (Hn : free m_num None
                 (re_sub m_str str_mask
                    (re_sub m_num (lit "{NUM}")
                       (re_sub m_uuid (lit "{UUID}")
                          (re_sub m_ip (lit "{IP}") m))))).
  { apply num_free_after_str, num_free_after_num. }
  split; [exact Hn|]. split; [apply num_free_ip_free; exact Hn|].
  apply uuid_free_after_str, uuid_free_after_num, uuid_free_after_uuid.
Qed.

Lemma short_uuid_free p s : (length s < 36)%nat -> free m_uuid p s.
Proof.
  revert p; induction s as [|c t IH]; intros p Hlen; [exact I|].
  split; [|apply IH; simpl in Hlen; lia].
  destruct (m_uuid p (c :: t)) eqn:E; [exfalso | reflexivity].
  apply m_uuid_inv in E as [_ [E _]]. rewrite length_firstn in E. lia.
Qed.

Lemma m_ip_nondigit p c z : is_digit c = false -> m_ip p (c :: z) = None.
Proof.
  intros H. unfold m_ip, digits1. rewrite H.
  destruct (wordb p); reflexivity.
Qed.

Lemma m_str_nonquote p c z :
  Ascii.eqb c chr_quote = false -> m_str p (c :: z) = None.
Proof. intros H. unfold m_str. rewrite H. reflexivity. Qed.

Lemma plain_free s p :
  forallb (fun c => negb (is_digit c) && negb (Ascii.eqb c chr_quote)) s
  = true ->
  free m_ip p s /\ free m_num p s /\ free m_str p s.
Proof.
  revert p; induction s as [|c t IH]; intros p H; [repeat split|].
  cbn [forallb] in H. apply andb_true_iff in H as [Hc Ht].
  apply andb_true_iff in Hc as [Hd Hq].
  apply negb_true_iff in Hd, Hq.
  destruct (IH (Some c) Ht) as [I1 [I2 I3]].
  repeat split; auto.
  - apply m_ip_nondigit. exact Hd.
  - apply m_num_nondigit. exact Hd.
  - apply m_str_nonquote. exact Hq.
Qed.

(** X22: a message without a digit and without a single quote, shorter than
    36 characters, is its own pattern: masking leaves it as it is. *)
Theorem plain_message_is_its_pattern (m : str) :
  plain_message m -> mask m = m.
Proof.
  intros [Hc Hlen]. unfold mask. cbn [fold_left mask_patterns fst snd].
  destruct (plain_free m None Hc) as [H1 [H2 H3]].
  unfold re_sub.
  rewrite (free_sub_id m_ip _ m None H1).
  rewrite (free_sub_id m_uuid _ m None (short_uuid_free None m Hlen)).
  rewrite (free_sub_id m_num _ m None H2).
  apply (free_sub_id m_str _ m None H3).
Qed.

Lemma plain_message_is_its_pattern_witness :
  mask (lit "App started") = lit "App started".
Proof.
  apply (plain_message_is_its_pattern (lit "App started")).
  split; [vm_compute; reflexivity | vm_compute; lia].
Defined.

(** ** Instances *)

Ltac clean_by_computation :=
  unfold fields_clean, clean_fields, no_newline, trimmed;
  repeat split; try discriminate; try reflexivity;
  try (vm_compute; intuition discriminate);
  try (intros c H; vm_compute in H; injection H as <-; reflexivity).

Lemma cluster_tallies_its_entries_witness :
  let pd := parse_lines (lines_of one_line) in
  let c := mk_cluster (lit "App started") (lit "INFO") 1 (lit "App started")
                      [lit "2025-01-01T00:00:00"] in
  c_count c = Z.of_nat (length (entries_with (cluster_signature c) pd)) /\
  c_timestamps c = map e_timestamp (entries_with (cluster_signature c) pd) /\
  1 <= c_count c /\
  c_pattern c = mask (c_example c).
Proof.
  apply (cluster_tallies_its_entries (parse_lines (lines_of one_line))
           (mk_cluster (lit "App started") (lit "INFO") 1 (lit "App started")
                       [lit "2025-01-01T00:00:00"])).
  vm_compute. left. reflexivity.
Defined.

Lemma components_are_those_seen_witness :
  NoDup (components sample_report) /\
  forall comp, In comp (components sample_report) <->
    exists e, In e (parse_lines (lines_of sample_text)) /\
              e_component e = comp.
Proof.
  apply (components_are_those_seen sample_text sample_report).
  vm_compute. reflexivity.
Defined.

Lemma raw_text_passes_through_witness :
  normalize_input (fun _ : unit => true) no_json (fun _ => []) (fun _ => [])
    (fun _ => Ok []) one_line = one_line.
Proof.
  apply (raw_text_passes_through unit (fun _ => true) no_json (fun _ => [])
           (fun _ => []) (fun _ => Ok []) one_line JSONDecodeError).
  - reflexivity.
  - left. vm_compute. reflexivity.
Defined.

Lemma overlong_row_spoils_csv_witness :
  normalize_input (fun _ : unit => true) no_json (fun _ => []) (fun _ => [])
    (fun _ => Ok overlong_rows) csv_example = csv_example.
Proof.
  apply (overlong_row_spoils_csv unit (fun _ => true) no_json (fun _ => [])
           (fun _ => []) (fun _ => Ok overlong_rows) csv_example
           JSONDecodeError overlong_rows
           (mk_row [(lit "a", Some (lit "1"))] [lit "2"])).
  - reflexivity.
  - reflexivity.
  - left. reflexivity.
  - unfold overlong_without_message.
    split; [discriminate | split; reflexivity].
Defined.

Lemma csv_rows_become_entries_witness :
  parsed_data
    (parse_lines_into
       (init (fun _ : unit => true) no_json (fun _ => []) (fun _ => [])
             (fun _ => Ok csv_example_rows) csv_example))
  = map (fun row => entry_of_fields (row_fields row)) csv_example_rows.
Proof.
  apply (csv_rows_become_entries unit (fun _ => true) no_json (fun _ => [])
           (fun _ => []) (fun _ => Ok csv_example_rows) csv_example
           JSONDecodeError csv_example_rows).
  - reflexivity.
  - vm_compute. reflexivity.
  - vm_compute. reflexivity.
  - reflexivity.
  - discriminate.
  - repeat constructor; clean_by_computation.
Defined.

Lemma normalizers_agree_witness :
  backend_normalize_input (fun _ : unit => true)
    (fun _ => Ok object_example) (fun _ => []) (fun _ => [])
    (fun _ => Ok []) one_line
  = normalize_input (fun _ : unit => true)
      (fun _ => Ok object_example) (fun _ => []) (fun _ => [])
      (fun _ => Ok []) one_line.
Proof.
  apply (normalizers_agree unit (fun _ => true)
           (fun _ => Ok object_example) (fun _ => []) (fun _ => [])
           (fun _ => Ok []) one_line).
  intros kv H. injection H as <-. right. left. reflexivity.
Defined.

Lemma array_elements_become_entries_witness :
  parsed_data
    (parse_lines_into
       (init (fun _ : unit => true) (fun _ => Ok (JArr array_example))
             (fun _ => []) (fun _ => []) (fun _ => Ok []) one_line))
  = map (fun obj => entry_of_fields
                      (element_fields (fun _ : unit => true) (fun _ => [])
                                      (fun _ => []) obj))
        array_example.
Proof.
  apply (array_elements_become_entries unit (fun _ => true)
           (fun _ => Ok (JArr array_example)) (fun _ => []) (fun _ => [])
           (fun _ => Ok []) one_line array_example).
  - reflexivity.
  - repeat constructor; clean_by_computation.
Defined.
